(** * ConfigListener provisioning handler

    A shallow embedding of
    [pkg/reconcile/pipeline/infinispan/handler/provision/config_listener.go]:
    the handler that provisions, scales and removes the ConfigListener
    bundle (ServiceAccount, Role, RoleBinding, Deployment) of an Infinispan
    cluster.

    The handler talks to its collaborators (the resource store behind
    [ctx.Resources()], the operator-image lookup, the logger and the requeue
    signal) through [pipeline.Context].  Here a handler is a finite tree of
    such calls ([Prog]); running it against any implementation of the
    collaborators ([Handler]) yields its result, the final state of the
    collaborators and the trace of the calls made, in order. *)

From stdpp Require Import base option list gmap strings.
From Stdlib Require Import ZArith.

Open Scope Z_scope.
Open Scope string_scope.
Open Scope list_scope.

(** ** Kubernetes objects (the fields this handler reads or writes) *)

(** [metav1.Time]: the instant, counted from Go's zero time. *)
Definition Time : Type := Z.

Definition IsZero (t : Time) : bool := Z.eqb t 0.

Record ObjectMeta : Type := {
  om_Name : string;
  om_Namespace : string;
  om_Labels : gmap string string;
  om_CreationTimestamp : Time
}.

Definition emptyObjectMeta : ObjectMeta :=
  {| om_Name := EmptyString; om_Namespace := EmptyString;
     om_Labels := ∅; om_CreationTimestamp := 0 |}.

(** [corev1.ServiceAccount] *)
Record ServiceAccount : Type := { sa_ObjectMeta : ObjectMeta }.

(** [rbacv1.PolicyRule] *)
Record PolicyRule : Type := {
  APIGroups : list string;
  Resources : list string;
  Verbs : list string
}.

(** [rbacv1.Role] *)
Record Role : Type := {
  role_ObjectMeta : ObjectMeta;
  Rules : list PolicyRule
}.

(** [rbacv1.RoleRef] *)
Record RoleRef : Type := {
  rr_APIGroup : string;
  rr_Kind : string;
  rr_Name : string
}.

(** [rbacv1.Subject] *)
Record Subject : Type := {
  subj_Kind : string;
  subj_Name : string;
  subj_Namespace : string
}.

(** [rbacv1.RoleBinding] *)
Record RoleBinding : Type := {
  rb_ObjectMeta : ObjectMeta;
  rb_RoleRef : RoleRef;
  Subjects : list Subject
}.

(** [corev1.Container] *)
Record Container : Type := {
  c_Name : string;
  c_Image : string;
  c_Args : list string
}.

(** [corev1.PodSpec] *)
Record PodSpec : Type := {
  Containers : list Container;
  ServiceAccountName : string
}.

(** [corev1.PodTemplateSpec] *)
Record PodTemplateSpec : Type := {
  tmpl_ObjectMeta : ObjectMeta;
  tmpl_Spec : PodSpec
}.

(** [metav1.LabelSelector] *)
Record LabelSelector : Type := { MatchLabels : gmap string string }.

(** [appsv1.DeploymentSpec]; [Replicas] is an [*int32], [Selector] a
    [*metav1.LabelSelector]: [None] is the nil pointer. *)
Record DeploymentSpec : Type := {
  Replicas : option Z;
  Selector : option LabelSelector;
  Template : PodTemplateSpec
}.

(** [appsv1.Deployment] *)
Record Deployment : Type := {
  dep_ObjectMeta : ObjectMeta;
  dep_Spec : DeploymentSpec
}.

Definition emptyRoleRef : RoleRef :=
  {| rr_APIGroup := EmptyString; rr_Kind := EmptyString; rr_Name := EmptyString |}.

Definition emptyPodSpec : PodSpec :=
  {| Containers := []; ServiceAccountName := EmptyString |}.

Definition emptyDeploymentSpec : DeploymentSpec :=
  {| Replicas := None; Selector := None;
     Template := {| tmpl_ObjectMeta := emptyObjectMeta; tmpl_Spec := emptyPodSpec |} |}.

(** Go's zero values [&corev1.ServiceAccount{}], [&rbacv1.Role{}],
    [&rbacv1.RoleBinding{}] and [&appsv1.Deployment{}]. *)
Definition emptyServiceAccount : ServiceAccount :=
  {| sa_ObjectMeta := emptyObjectMeta |}.
Definition emptyRole : Role :=
  {| role_ObjectMeta := emptyObjectMeta; Rules := [] |}.
Definition emptyRoleBinding : RoleBinding :=
  {| rb_ObjectMeta := emptyObjectMeta; rb_RoleRef := emptyRoleRef; Subjects := [] |}.
Definition emptyDeployment : Deployment :=
  {| dep_ObjectMeta := emptyObjectMeta; dep_Spec := emptyDeploymentSpec |}.

(** [client.Object], restricted to the four kinds of the bundle. *)
Inductive Object : Type :=
| OServiceAccount (sa : ServiceAccount)
| ORole (role : Role)
| ORoleBinding (roleBinding : RoleBinding)
| ODeployment (deployment : Deployment).

Inductive Kind : Type := KServiceAccount | KRole | KRoleBinding | KDeployment.

Definition kindOf (obj : Object) : Kind :=
  match obj with
  | OServiceAccount _ => KServiceAccount
  | ORole _ => KRole
  | ORoleBinding _ => KRoleBinding
  | ODeployment _ => KDeployment
  end.

Definition metaOf (obj : Object) : ObjectMeta :=
  match obj with
  | OServiceAccount sa => sa_ObjectMeta sa
  | ORole role => role_ObjectMeta role
  | ORoleBinding roleBinding => rb_ObjectMeta roleBinding
  | ODeployment deployment => dep_ObjectMeta deployment
  end.

(** ** Errors *)

(** [schema.GroupResource] *)
Record GroupResource : Type := { gr_Group : string; gr_Resource : string }.

(** [appsv1.Resource]: a resource name qualified by the [apps] group. *)
Definition appsv1_Resource (resource : string) : GroupResource :=
  {| gr_Group := "apps"; gr_Resource := resource |}.

(** Go's [error] values met by the handler: the API status errors built by
    [errors.NewNotFound] and its siblings, and every other failure. A nil
    [error] is [None] in an [option error]. *)
Inductive error : Type :=
| NewNotFound (qualifiedResource : GroupResource) (name : string)
| NewAlreadyExists (qualifiedResource : GroupResource) (name : string)
| OtherError (msg : string).

(** [errors.IsNotFound] *)
Definition IsNotFound (err : error) : bool :=
  match err with
  | NewNotFound _ _ => true
  | _ => false
  end.

(** ** The collaborators' interface *)

(** The functional options of [pipeline.Resources]. *)
Inductive ResourcesOpt : Type := RetryOnErr | IgnoreNotFound.

Global Instance ResourcesOpt_eq_dec : EqDecision ResourcesOpt.
Proof. solve_decision. Defined.

(** A call through [pipeline.Context], indexed by the type of its answer.
    [Load] is used at [*appsv1.Deployment] only: its answer is the error or
    the loaded deployment.  [CreateOrPatch] receives the object and the
    mutation closure, which updates the object in place and returns an
    error or nil; its [OperationResult] is discarded by the only caller. *)
Inductive Call : Type -> Type :=
| GetOperatorImage : Call (error + string)
| LogError (err : error) (msg : string) : Call unit
| LogInfo (msg key : string) (value : Z) : Call unit
| Requeue (err : error) : Call unit
| Load (name : string) : Call (error + Deployment)
| Create (obj : Object) (setControllerRef : bool) (opts : list ResourcesOpt) :
    Call (option error)
| Update (obj : Object) (opts : list ResourcesOpt) : Call (option error)
| Delete (name : string) (obj : Object) (opts : list ResourcesOpt) :
    Call (option error)
| CreateOrPatch (obj : Deployment) (setControllerRef : bool)
    (mutate : Deployment -> Deployment * option error) : Call (option error).

(** A handler function: a finite tree of calls, each continued with its
    answer. *)
Inductive Prog (A : Type) : Type :=
| Ret (a : A)
| Vis {T : Type} (c : Call T) (k : T -> Prog A).

Arguments Ret {A} a.
Arguments Vis {A T} c k.

Fixpoint bind {A B : Type} (p : Prog A) (f : A -> Prog B) : Prog B :=
  match p with
  | Ret a => f a
  | Vis c k => Vis c (fun r => bind (k r) f)
  end.

Definition call {T : Type} (c : Call T) : Prog T := Vis c Ret.

Global Instance Prog_ret : MRet Prog := @Ret.
Global Instance Prog_bind : MBind Prog := fun A B f p => bind p f.

(** One call together with the answer it got. *)
Inductive Event : Type :=
| Ev {T : Type} (c : Call T) (r : T).

(** An implementation of the collaborators over a state [W]. *)
Definition Handler (W : Type) : Type := forall T : Type, Call T -> W -> T * W.

(** The outcome of running a handler function. *)
Record Outcome (A W : Type) : Type := {
  result : A;
  final : W;
  trace : list Event
}.

Arguments result {A W} o.
Arguments final {A W} o.
Arguments trace {A W} o.

(** The answer of the collaborators to a call, and their state after it. *)
Definition ans {W T : Type} (h : Handler W) (c : Call T) (w : W) : T := fst (h T c w).
Definition nxt {W T : Type} (h : Handler W) (c : Call T) (w : W) : W := snd (h T c w).

Definition prepend {A W : Type} (ev : Event) (o : Outcome A W) : Outcome A W :=
  {| result := result o; final := final o; trace := ev :: trace o |}.

Fixpoint run {A W : Type} (h : Handler W) (p : Prog A) (w : W) : Outcome A W :=
  match p with
  | Ret a => {| result := a; final := w; trace := [] |}
  | Vis c k => prepend (Ev c (ans h c w)) (run h (k (ans h c w)) (nxt h c w))
  end.

(** ** What the handler takes from the rest of the operator

    The parent resource [ispnv1.Infinispan] with the fields and methods the
    handler uses, the constants it reads and the container lookup
    [kube.GetContainer] live in other packages of the operator; the handler
    is embedded over any implementation of them. *)
Class Externals : Type := {
  Infinispan : Type;
  (** [i.Name] and [i.Namespace] *)
  Name : Infinispan -> string;
  Namespace : Infinispan -> string;
  (** [i.IsConfigListenerEnabled()], [i.GetConfigListenerName()], [i.PodLabels()] *)
  IsConfigListenerEnabled : Infinispan -> bool;
  GetConfigListenerName : Infinispan -> string;
  PodLabels : Infinispan -> gmap string string;
  (** [constants.ConfigListenerImageName] *)
  ConfigListenerImageName : string;
  (** [v2alpha1.GroupVersion.Group] and [ispnv1.GroupVersion.Group] *)
  v2alpha1_Group : string;
  ispnv1_Group : string;
  (** [kube.GetContainer(name, spec)]; [None] is the nil pointer *)
  GetContainer : string -> PodSpec -> option Container
}.

(** [rbacv1.ServiceAccountKind] *)
Definition ServiceAccountKind : string := "ServiceAccount".

Definition InfinispanListenerContainer : string := "infinispan-listener".

(** The closure given to [CreateOrPatch] by [ScaleConfigListener]
    (lines 204-210), as a function of the deployment it captures. *)
Definition scaleMutate (replicas : Z) (deployment : Deployment) :
    Deployment * option error :=
  if IsZero (om_CreationTimestamp (dep_ObjectMeta deployment)) then
    (deployment,
     Some (NewNotFound (appsv1_Resource "deployment")
             (om_Name (dep_ObjectMeta deployment))))
  else
    ({| dep_ObjectMeta := dep_ObjectMeta deployment;
        dep_Spec := {| Replicas := Some replicas;
                       Selector := Selector (dep_Spec deployment);
                       Template := Template (dep_Spec deployment) |} |},
     None).

Section Handler.
Context `{Externals}.

(** [metav1.ObjectMeta{Name: name, Namespace: namespace}] *)
Definition objectMetaOf (name namespace : string) : ObjectMeta :=
  {| om_Name := name; om_Namespace := namespace;
     om_Labels := ∅; om_CreationTimestamp := 0 |}.

(** The loop of [RemoveConfigListener] (lines 183-187). *)
Fixpoint removeResources (name : string) (resources : list Object) : Prog unit :=
  match resources with
  | [] => Ret tt
  | obj :: rest =>
      err ← call (Delete name obj [RetryOnErr; IgnoreNotFound]);
      match err with
      | Some _ => Ret tt
      | None => removeResources name rest
      end
  end.

Definition RemoveConfigListener (i : Infinispan) : Prog unit :=
  let resources :=
    [ ODeployment emptyDeployment;
      ORole emptyRole;
      ORoleBinding emptyRoleBinding;
      OServiceAccount emptyServiceAccount ] in
  let name := GetConfigListenerName i in
  removeResources name resources.

Definition ScaleConfigListener (replicas : Z) (i : Infinispan) :
    Prog (option error) :=
  if negb (IsConfigListenerEnabled i) then Ret None
  else
    call (LogInfo "Scaling ConfigListener deployment" "replicas" replicas);;
    let deployment :=
      {| dep_ObjectMeta := objectMetaOf (GetConfigListenerName i) (Namespace i);
         dep_Spec := emptyDeploymentSpec |} in
    err ← call (CreateOrPatch deployment false (scaleMutate replicas));
    match err with
    | Some e =>
        call (LogError e "unable to scale ConfigListener Deployment");;
        Ret (Some e)
    | None => Ret None
    end.

(** The closure [createOrUpdate] (lines 65-71). *)
Definition createOrUpdate (listenerExists : bool) (obj : Object) :
    Prog (option error) :=
  if listenerExists then call (Update obj [RetryOnErr])
  else call (Create obj true [RetryOnErr]).

(** The objects built on lines 73-75, 80-115, 120-132 and 138-168. *)
Definition listenerServiceAccount (i : Infinispan) : ServiceAccount :=
  {| sa_ObjectMeta := objectMetaOf (GetConfigListenerName i) (Namespace i) |}.

Definition listenerRole (i : Infinispan) : Role :=
  {| role_ObjectMeta := objectMetaOf (GetConfigListenerName i) (Namespace i);
     Rules :=
       [ {| APIGroups := [v2alpha1_Group];
            Resources := ["caches"];
            Verbs := ["create"; "delete"; "get"; "list"; "patch"; "update"; "watch"] |};
         {| APIGroups := [ispnv1_Group];
            Resources := ["infinispans"];
            Verbs := ["get"] |};
         {| APIGroups := [EmptyString];
            Resources := ["pods"];
            Verbs := ["list"] |};
         {| APIGroups := [EmptyString];
            Resources := ["pods/exec"];
            Verbs := ["create"] |};
         {| APIGroups := [EmptyString];
            Resources := ["secrets"];
            Verbs := ["get"] |} ] |}.

Definition listenerRoleBinding (i : Infinispan) : RoleBinding :=
  {| rb_ObjectMeta := objectMetaOf (GetConfigListenerName i) (Namespace i);
     rb_RoleRef :=
       {| rr_APIGroup := "rbac.authorization.k8s.io";
          rr_Kind := "Role";
          rr_Name := GetConfigListenerName i |};
     Subjects :=
       [ {| subj_Kind := ServiceAccountKind;
            subj_Name := GetConfigListenerName i;
            subj_Namespace := Namespace i |} ] |}.

Definition listenerDeployment (i : Infinispan) (configListenerImage : string) :
    Deployment :=
  let labels := <["app" := "infinispan-config-listener-pod"]> (PodLabels i) in
  {| dep_ObjectMeta := objectMetaOf (GetConfigListenerName i) (Namespace i);
     dep_Spec :=
       {| Replicas := None;
          Selector := Some {| MatchLabels := labels |};
          Template :=
            {| tmpl_ObjectMeta :=
                 {| om_Name := EmptyString; om_Namespace := EmptyString;
                    om_Labels := labels; om_CreationTimestamp := 0 |};
               tmpl_Spec :=
                 {| Containers :=
                      [ {| c_Name := InfinispanListenerContainer;
                           c_Image := configListenerImage;
                           c_Args := ["listener"; "-namespace"; Namespace i;
                                      "-cluster"; Name i] |} ];
                    ServiceAccountName := GetConfigListenerName i |} |} |} |}.

(** The four-step chain of lines 72-171: each step is a [createOrUpdate],
    and an error from it returns from the handler. *)
Definition applyBundle (listenerExists : bool) (i : Infinispan)
    (configListenerImage : string) : Prog unit :=
  err ← createOrUpdate listenerExists (OServiceAccount (listenerServiceAccount i));
  match err with
  | Some _ => Ret tt
  | None =>
  err ← createOrUpdate listenerExists (ORole (listenerRole i));
  match err with
  | Some _ => Ret tt
  | None =>
  err ← createOrUpdate listenerExists (ORoleBinding (listenerRoleBinding i));
  match err with
  | Some _ => Ret tt
  | None =>
  err ← createOrUpdate listenerExists
          (ODeployment (listenerDeployment i configListenerImage));
  match err with
  | Some _ => Ret tt
  | None => Ret tt
  end end end end.

(** Lines 40-172 of [ConfigListener]: what the handler does once
    [configListenerImage] is resolved. *)
Definition reconcileListener (i : Infinispan) (configListenerImage : string) :
    Prog unit :=
  let name := GetConfigListenerName i in
  loaded ← call (Load name);
  let listenerExists :=
    match loaded with inr _ => true | inl _ => false end in
  match loaded with
  | inr deployment =>
      match GetContainer InfinispanListenerContainer
              (tmpl_Spec (Template (dep_Spec deployment))) with
      | Some container =>
          if String.eqb (c_Image container) configListenerImage then
            match Replicas (dep_Spec deployment) with
            | Some replicas =>
                if Z.eqb replicas 0 then
                  err ← ScaleConfigListener 1 i;
                  match err with
                  | Some e => call (Requeue e)
                  | None => Ret tt
                  end
                else Ret tt
            | None => Ret tt
            end
          else applyBundle listenerExists i configListenerImage
      | None => applyBundle listenerExists i configListenerImage
      end
  | inl _ => applyBundle listenerExists i configListenerImage
  end.

(** Lines 26-38 of [ConfigListener]: the image of the listener, or the
    early return ([None]) after logging and requeueing the lookup error. *)
Definition resolveImage : Prog (option string) :=
  if negb (String.eqb ConfigListenerImageName EmptyString) then
    Ret (Some ConfigListenerImageName)
  else
    resolved ← call GetOperatorImage;
    match resolved with
    | inl err =>
        call (LogError err "unable to create ConfigListener deployment");;
        call (Requeue err);;
        Ret None
    | inr image => Ret (Some image)
    end.

Definition ConfigListener (i : Infinispan) : Prog unit :=
  if negb (IsConfigListenerEnabled i) then RemoveConfigListener i
  else
    resolved ← resolveImage;
    match resolved with
    | None => Ret tt
    | Some configListenerImage => reconcileListener i configListenerImage
    end.

End Handler.

(** ** An in-memory resource store *)

Global Instance Kind_eq_dec : EqDecision Kind.
Proof. solve_decision. Defined.

Definition Kind_to_nat (k : Kind) : nat :=
  match k with
  | KServiceAccount => 0 | KRole => 1 | KRoleBinding => 2 | KDeployment => 3
  end%nat.

Definition Kind_of_nat (n : nat) : Kind :=
  match n with
  | O => KServiceAccount | 1%nat => KRole | 2%nat => KRoleBinding | _ => KDeployment
  end.

Global Instance Kind_countable : Countable Kind.
Proof.
  refine (inj_countable' Kind_to_nat Kind_of_nat _).
  intros []; reflexivity.
Defined.

Module Store.

(** Modelled from the spec: the Resource Store collaborator behind
    [ctx.Resources()] and the environment lookup [kube.GetOperatorImage],
    whose code is not part of this package (spec sections 4.3, 4.4 and 6).
    The store keeps the objects of the parent's namespace by kind and name.
    [faults] schedules failures: each store operation takes the head of the
    list, and fails with it, changing nothing, when it is an error. *)
Record Cluster : Type := {
  objects : gmap (Kind * string) Object;
  operatorImage : error + string;
  faults : list (option error);
  clock : positive;
  requeued : list error
}.

Definition setObjects (objs : gmap (Kind * string) Object) (w : Cluster) : Cluster :=
  {| objects := objs; operatorImage := operatorImage w; faults := faults w;
     clock := clock w; requeued := requeued w |}.

Definition tick (w : Cluster) : Cluster :=
  {| objects := objects w; operatorImage := operatorImage w; faults := faults w;
     clock := Pos.succ (clock w); requeued := requeued w |}.

Definition nextFault (w : Cluster) : option error * Cluster :=
  match faults w with
  | [] => (None, w)
  | f :: rest =>
      (f, {| objects := objects w; operatorImage := operatorImage w;
             faults := rest; clock := clock w; requeued := requeued w |})
  end.

Definition addRequeue (err : error) (w : Cluster) : Cluster :=
  {| objects := objects w; operatorImage := operatorImage w; faults := faults w;
     clock := clock w; requeued := requeued w ++ [err] |}.

Definition setTimestamp (t : Time) (m : ObjectMeta) : ObjectMeta :=
  {| om_Name := om_Name m; om_Namespace := om_Namespace m;
     om_Labels := om_Labels m; om_CreationTimestamp := t |}.

Definition stamp (t : Time) (obj : Object) : Object :=
  match obj with
  | OServiceAccount sa =>
      OServiceAccount {| sa_ObjectMeta := setTimestamp t (sa_ObjectMeta sa) |}
  | ORole role =>
      ORole {| role_ObjectMeta := setTimestamp t (role_ObjectMeta role);
               Rules := Rules role |}
  | ORoleBinding roleBinding =>
      ORoleBinding {| rb_ObjectMeta := setTimestamp t (rb_ObjectMeta roleBinding);
                      rb_RoleRef := rb_RoleRef roleBinding;
                      Subjects := Subjects roleBinding |}
  | ODeployment deployment =>
      ODeployment {| dep_ObjectMeta := setTimestamp t (dep_ObjectMeta deployment);
                     dep_Spec := dep_Spec deployment |}
  end.

Definition resourceOf (k : Kind) : GroupResource :=
  match k with
  | KServiceAccount => {| gr_Group := EmptyString; gr_Resource := "serviceaccounts" |}
  | KRole => {| gr_Group := "rbac.authorization.k8s.io"; gr_Resource := "roles" |}
  | KRoleBinding =>
      {| gr_Group := "rbac.authorization.k8s.io"; gr_Resource := "rolebindings" |}
  | KDeployment => appsv1_Resource "deployments"
  end.

(** Modelled from the spec: [Resources.Load], by its contract
    [Load(name) -> object | NotFoundError | OtherError]. *)
Definition load (name : string) (w : Cluster) : (error + Deployment) * Cluster :=
  let '(fault, w) := nextFault w in
  match fault with
  | Some e => (inl e, w)
  | None =>
      match objects w !! (KDeployment, name) with
      | Some (ODeployment deployment) => (inr deployment, w)
      | _ => (inl (NewNotFound (resourceOf KDeployment) name), w)
      end
  end.

(** Modelled from the spec: [Resources.Create], by its contract
    [Create(object, setControllerOwner) -> success | AlreadyExists | OtherError];
    a created object gets its creation timestamp from the store. *)
Definition create (obj : Object) (w : Cluster) : option error * Cluster :=
  let '(fault, w) := nextFault w in
  match fault with
  | Some e => (Some e, w)
  | None =>
      let key := (kindOf obj, om_Name (metaOf obj)) in
      match objects w !! key with
      | Some _ => (Some (NewAlreadyExists (resourceOf (kindOf obj)) (snd key)), w)
      | None =>
          (None, tick (setObjects (<[key := stamp (Z.pos (clock w)) obj]> (objects w)) w))
      end
  end.

(** Modelled from the spec: [Resources.Update], by its contract
    [Update(object) -> success | OtherError]; the stored creation timestamp
    is kept. *)
Definition update (obj : Object) (w : Cluster) : option error * Cluster :=
  let '(fault, w) := nextFault w in
  match fault with
  | Some e => (Some e, w)
  | None =>
      let key := (kindOf obj, om_Name (metaOf obj)) in
      match objects w !! key with
      | Some old =>
          (None,
           setObjects
             (<[key := stamp (om_CreationTimestamp (metaOf old)) obj]> (objects w)) w)
      | None => (Some (NewNotFound (resourceOf (kindOf obj)) (snd key)), w)
      end
  end.

(** Modelled from the spec: [Resources.Delete], by its contract
    [Delete(name, type) -> success | (NotFoundError treated as success) |
    OtherError]: not-found is success under the option [IgnoreNotFound]. *)
Definition delete (name : string) (obj : Object) (opts : list ResourcesOpt)
    (w : Cluster) : option error * Cluster :=
  let '(fault, w) := nextFault w in
  let key := (kindOf obj, name) in
  let '(err, w) :=
    match fault with
    | Some e => (Some e, w)
    | None =>
        match objects w !! key with
        | Some _ => (None, setObjects (base.delete key (objects w)) w)
        | None => (Some (NewNotFound (resourceOf (kindOf obj)) name), w)
        end
    end in
  match err with
  | Some e =>
      if bool_decide (IgnoreNotFound ∈ opts) && IsNotFound e then (None, w)
      else (Some e, w)
  | None => (None, w)
  end.

(** Modelled from the spec: [Resources.CreateOrPatch], by its contract
    [CreateOrPatch(object, mutateFn) -> success | OtherError]: it loads the
    object when it exists, invokes the mutation closure on it, and persists
    the result (a patch when the object was loaded, a creation otherwise);
    an error of the closure aborts without creating or patching. *)
Definition createOrPatch (obj : Deployment)
    (mutate : Deployment -> Deployment * option error) (w : Cluster) :
    option error * Cluster :=
  let '(fault, w) := nextFault w in
  match fault with
  | Some e => (Some e, w)
  | None =>
      let key := (KDeployment, om_Name (dep_ObjectMeta obj)) in
      match objects w !! key with
      | Some (ODeployment existing) =>
          match mutate existing with
          | (_, Some e) => (Some e, w)
          | (patched, None) =>
              (None, setObjects (<[key := ODeployment patched]> (objects w)) w)
          end
      | _ =>
          match mutate obj with
          | (_, Some e) => (Some e, w)
          | (desired, None) =>
              (None,
               tick (setObjects
                       (<[key := stamp (Z.pos (clock w)) (ODeployment desired)]>
                          (objects w)) w))
          end
      end
  end.

(** Modelled from the spec: the collaborators of the handler over the
    store; logging changes nothing and a requeue is recorded. *)
Definition handler : Handler Cluster :=
  fun T c =>
    match c in Call T return Cluster -> T * Cluster with
    | GetOperatorImage => fun w => (operatorImage w, w)
    | LogError _ _ => fun w => (tt, w)
    | LogInfo _ _ _ => fun w => (tt, w)
    | Requeue err => fun w => (tt, addRequeue err w)
    | Load name => load name
    | Create obj _ _ => create obj
    | Update obj _ => update obj
    | Delete name obj opts => delete name obj opts
    | CreateOrPatch obj _ mutate => createOrPatch obj mutate
    end.

(** A store with the given objects and operator image, and no fault. *)
Definition healthy (objs : gmap (Kind * string) Object) (image : string) : Cluster :=
  {| objects := objs; operatorImage := inr image; faults := [];
     clock := 1%positive; requeued := [] |}.

End Store.

(** ** A concrete parent resource *)

Module Demo.

Record Parent : Type := {
  p_Name : string;
  p_Namespace : string;
  p_ConfigListener : bool;
  p_Labels : gmap string string
}.

(** Modelled from the spec: [kube.GetContainer], which is not part of this
    package: it locates the named container among the containers of the pod
    spec, and answers nil when the container is absent (spec section 4.2). *)
Definition findContainer (name : string) (spec : PodSpec) : option Container :=
  List.find (fun c => String.eqb (c_Name c) name) (Containers spec).

Definition externals (imageName : string) : Externals :=
  {| Infinispan := Parent;
     Name := p_Name;
     Namespace := p_Namespace;
     IsConfigListenerEnabled := p_ConfigListener;
     GetConfigListenerName := fun i => p_Name i +:+ "-config-listener";
     PodLabels := p_Labels;
     ConfigListenerImageName := imageName;
     v2alpha1_Group := "infinispan.org";
     ispnv1_Group := "infinispan.org";
     GetContainer := findContainer |}.

Definition parent (enabled : bool) : Parent :=
  {| p_Name := "example"; p_Namespace := "ns"; p_ConfigListener := enabled;
     p_Labels := {[ "clusterName" := "example" ]} |}.

Definition operatorImage : string := "quay.io/infinispan/operator:2.4".
Definition listenerImage : string := "quay.io/infinispan/listener:1".
Definition listenerName : string := "example-config-listener".

(** The operator without an image override, and with one. *)
Definition fromOperator : Externals := externals EmptyString.
Definition overridden : Externals := externals listenerImage.

(** A store without any object; one where the operator image cannot be
    found; one with the failures [faults] scheduled. *)
Definition empty : Store.Cluster := Store.healthy ∅ operatorImage.

Definition noOperatorImage : Store.Cluster :=
  {| Store.objects := ∅;
     Store.operatorImage := inl (OtherError "operator pod not found");
     Store.faults := []; Store.clock := 1%positive; Store.requeued := [] |}.

Definition withFaults (faults : list (option error)) (w : Store.Cluster) :
    Store.Cluster :=
  {| Store.objects := Store.objects w; Store.operatorImage := Store.operatorImage w;
     Store.faults := faults; Store.clock := Store.clock w;
     Store.requeued := Store.requeued w |}.

(** The store after one reconcile from [empty] (the bundle is there, with
    the operator image), and after scaling the listener to [replicas]. *)
Definition provisioned : Store.Cluster :=
  final (run Store.handler (@ConfigListener fromOperator (parent true)) empty).

Definition scaled (replicas : Z) : Store.Cluster :=
  final (run Store.handler
           (@ScaleConfigListener fromOperator replicas (parent true)) provisioned).

End Demo.

(** ** Observations on traces *)

(** The object a [Create] or [Update] call writes. *)
Definition writtenOf {T : Type} (c : Call T) : option Object :=
  match c with
  | Create obj _ _ => Some obj
  | Update obj _ => Some obj
  | _ => None
  end.

Definition written (ev : Event) : option Object :=
  match ev with
  | Ev c _ => writtenOf c
  end.

(** The object a [Create] call creates. *)
Definition createdOf {T : Type} (c : Call T) : option Object :=
  match c with
  | Create obj _ _ => Some obj
  | _ => None
  end.

Definition created (ev : Event) : option Object :=
  match ev with
  | Ev c _ => createdOf c
  end.

(** The kind and name of the object a call to the store may change; [None]
    for the calls that only read, log or requeue. *)
Definition mutationOf {T : Type} (c : Call T) : option (Kind * string) :=
  match c with
  | Create obj _ _ => Some (kindOf obj, om_Name (metaOf obj))
  | Update obj _ => Some (kindOf obj, om_Name (metaOf obj))
  | Delete name obj _ => Some (kindOf obj, name)
  | CreateOrPatch obj _ _ => Some (KDeployment, om_Name (dep_ObjectMeta obj))
  | _ => None
  end.

Definition mutation (ev : Event) : option (Kind * string) :=
  match ev with
  | Ev c _ => mutationOf c
  end.

Definition mutations (tr : list Event) : list (Kind * string) := omap mutation tr.

(** [FailFast steps tr]: [tr] is a run of [steps] in order that goes on
    after each nil answer and stops at the first error. *)
Inductive FailFast : list (Call (option error)) -> list Event -> Prop :=
| FailFast_nil : FailFast [] []
| FailFast_abort c cs e : FailFast (c :: cs) [Ev c (Some e)]
| FailFast_next c cs tr : FailFast cs tr -> FailFast (c :: cs) (Ev c None :: tr).

(** Every step of the list gets a nil answer when run in order from [w]. *)
Fixpoint succeed {W : Type} (h : Handler W) (steps : list (Call (option error)))
    (w : W) : Prop :=
  match steps with
  | [] => True
  | c :: cs => ans h c w = None /\ succeed h cs (nxt h c w)
  end.

(** The steps one by one, stopping at the first error: the reference the
    loops and chains of the handler are compared with. *)
Fixpoint runSteps {W : Type} (h : Handler W) (steps : list (Call (option error)))
    (w : W) : Outcome unit W :=
  match steps with
  | [] => {| result := tt; final := w; trace := [] |}
  | c :: cs =>
      prepend (Ev c (ans h c w))
        match ans h c w with
        | Some _ => {| result := tt; final := nxt h c w; trace := [] |}
        | None => runSteps h cs (nxt h c w)
        end
  end.

(** A property of every call a handler function can make, on any path. *)
Inductive AllCalls {A : Type} (P : forall T : Type, Call T -> Prop) : Prog A -> Prop :=
| AllCalls_Ret a : AllCalls P (Ret a)
| AllCalls_Vis {T : Type} (c : Call T) (k : T -> Prog A) :
    P T c -> (forall r, AllCalls P (k r)) -> AllCalls P (Vis c k).

Definition holdsOn (P : forall T : Type, Call T -> Prop) (ev : Event) : Prop :=
  match ev with
  | Ev c _ => P _ c
  end.

Section Steps.
Context `{Externals}.

(** The four objects of the bundle, in the order of the chain. *)
Definition bundle (i : Infinispan) (configListenerImage : string) : list Object :=
  [ OServiceAccount (listenerServiceAccount i);
    ORole (listenerRole i);
    ORoleBinding (listenerRoleBinding i);
    ODeployment (listenerDeployment i configListenerImage) ].

Definition createStep (obj : Object) : Call (option error) :=
  Create obj true [RetryOnErr].

Definition updateStep (obj : Object) : Call (option error) :=
  Update obj [RetryOnErr].

Definition chainSteps (listenerExists : bool) (i : Infinispan)
    (configListenerImage : string) : list (Call (option error)) :=
  map (if listenerExists then updateStep else createStep)
      (bundle i configListenerImage).

Definition teardownSteps (i : Infinispan) : list (Call (option error)) :=
  map (fun obj => Delete (GetConfigListenerName i) obj [RetryOnErr; IgnoreNotFound])
      [ ODeployment emptyDeployment; ORole emptyRole;
        ORoleBinding emptyRoleBinding; OServiceAccount emptyServiceAccount ].

(** Whether [ConfigListener] goes on to the four-step chain after [Load]:
    the deployment is absent, the listener container is absent, or its image
    differs from the resolved one. *)
Definition syncNeeded (loaded : error + Deployment) (configListenerImage : string) : bool :=
  match loaded with
  | inl _ => true
  | inr deployment =>
      match GetContainer InfinispanListenerContainer
              (tmpl_Spec (Template (dep_Spec deployment))) with
      | Some container => negb (String.eqb (c_Image container) configListenerImage)
      | None => true
      end
  end.

Definition loadSucceeded (loaded : error + Deployment) : bool :=
  match loaded with
  | inl _ => false
  | inr _ => true
  end.

End Steps.

(** ** Further observations on calls and traces *)

(** Which operation of the collaborators a call is. *)
Inductive CallName : Type :=
| NGetOperatorImage | NLogError | NLogInfo | NRequeue
| NLoad | NCreate | NUpdate | NDelete | NCreateOrPatch.

Global Instance CallName_eq_dec : EqDecision CallName.
Proof. solve_decision. Defined.

Definition nameOf {T : Type} (c : Call T) : CallName :=
  match c with
  | GetOperatorImage => NGetOperatorImage
  | LogError _ _ => NLogError
  | LogInfo _ _ _ => NLogInfo
  | Requeue _ => NRequeue
  | Load _ => NLoad
  | Create _ _ _ => NCreate
  | Update _ _ => NUpdate
  | Delete _ _ _ => NDelete
  | CreateOrPatch _ _ _ => NCreateOrPatch
  end.

Definition eventName (ev : Event) : CallName :=
  match ev with
  | Ev c _ => nameOf c
  end.

(** How many calls of the trace are the operation [n]. *)
Definition calls (n : CallName) (tr : list Event) : nat :=
  length (filter (fun ev => eventName ev = n) tr).





(** The error a [Requeue] call signals, and the error a [LogError] call
    reports. *)
Definition requeuedBy {T : Type} (c : Call T) : option error :=
  match c with
  | Requeue err => Some err
  | _ => None
  end.

Definition requeued (ev : Event) : option error :=
  match ev with
  | Ev c _ => requeuedBy c
  end.

Definition loggedBy {T : Type} (c : Call T) : option error :=
  match c with
  | LogError err _ => Some err
  | _ => None
  end.

Definition logged (ev : Event) : option error :=
  match ev with
  | Ev c _ => loggedBy c
  end.

(** The controller-reference flag and the options of a call to the store. *)
Definition controllerRefBy {T : Type} (c : Call T) : option bool :=
  match c with
  | Create _ setControllerRef _ => Some setControllerRef
  | CreateOrPatch _ setControllerRef _ => Some setControllerRef
  | _ => None
  end.

Definition optionsBy {T : Type} (c : Call T) : option (list ResourcesOpt) :=
  match c with
  | Create _ _ opts => Some opts
  | Update _ opts => Some opts
  | Delete _ _ opts => Some opts
  | _ => None
  end.

Definition controllerRef (ev : Event) : option bool :=
  match ev with
  | Ev c _ => controllerRefBy c
  end.

Definition options (ev : Event) : option (list ResourcesOpt) :=
  match ev with
  | Ev c _ => optionsBy c
  end.

(** A property of the trace of a handler function, whatever the
    collaborators answer. *)
Definition Always {A : Type} (P : list Event -> Prop) (p : Prog A) : Prop :=
  forall (W : Type) (h : Handler W) (w : W), P (trace (run h p w)).

(** How two objects of the bundle refer to each other: a RoleBinding names
    the Role and has the ServiceAccount as its only subject, and the pods of
    the Deployment run under the ServiceAccount. *)
Definition refersTo (obj target : Object) : Prop :=
  match obj, target with
  | ORoleBinding roleBinding, ORole role =>
      rb_RoleRef roleBinding =
        {| rr_APIGroup := "rbac.authorization.k8s.io"; rr_Kind := "Role";
           rr_Name := om_Name (role_ObjectMeta role) |}
  | ORoleBinding roleBinding, OServiceAccount sa =>
      Subjects roleBinding =
        [ {| subj_Kind := "ServiceAccount";
             subj_Name := om_Name (sa_ObjectMeta sa);
             subj_Namespace := om_Namespace (sa_ObjectMeta sa) |} ]
  | ODeployment deployment, OServiceAccount sa =>
      ServiceAccountName (tmpl_Spec (Template (dep_Spec deployment))) =
        om_Name (sa_ObjectMeta sa) /\
      om_Namespace (dep_ObjectMeta deployment) = om_Namespace (sa_ObjectMeta sa)
  | _, _ => True
  end.

(** [o], with the events [pre] before its own. *)
Definition after {A W : Type} (pre : list Event) (o : Outcome A W) : Outcome A W :=
  {| result := result o; final := final o; trace := pre ++ trace o |}.

(** ** Running handler functions *)

Lemma run_bind {A B W : Type} (h : Handler W) (p : Prog A) (f : A -> Prog B) (w : W) :
  run h (bind p f) w =
  let o := run h p w in
  let o' := run h (f (result o)) (final o) in
  {| result := result o'; final := final o'; trace := trace o ++ trace o' |}.
Proof.
  revert w. induction p as [a | T c k IH]; intros w; simpl.
  - by destruct (run h (f a) w).
  - rewrite IH. reflexivity.
Qed.

Lemma run_mbind {A B W : Type} (h : Handler W) (p : Prog A) (f : A -> Prog B) (w : W) :
  run h (p ≫= f) w =
  let o := run h p w in
  let o' := run h (f (result o)) (final o) in
  {| result := result o'; final := final o'; trace := trace o ++ trace o' |}.
Proof. apply run_bind. Qed.

Lemma run_call {A W T : Type} (h : Handler W) (c : Call T) (k : T -> Prog A) (w : W) :
  run h (call c ≫= k) w = prepend (Ev c (ans h c w)) (run h (k (ans h c w)) (nxt h c w)).
Proof. reflexivity. Qed.

Lemma AllCalls_bind {A B : Type} (P : forall T : Type, Call T -> Prop)
    (p : Prog A) (f : A -> Prog B) :
  AllCalls P p -> (forall a, AllCalls P (f a)) -> AllCalls P (bind p f).
Proof.
  intros Hp Hf. induction Hp as [a | T c k Hc _ IH]; simpl.
  - apply Hf.
  - constructor; [exact Hc | exact IH].
Qed.

Lemma AllCalls_impl {A : Type} (P Q : forall T : Type, Call T -> Prop) (p : Prog A) :
  (forall T (c : Call T), P T c -> Q T c) -> AllCalls P p -> AllCalls Q p.
Proof.
  intros HPQ Hp. induction Hp as [a | T c k Hc _ IH]; constructor; auto.
Qed.

Lemma AllCalls_trace {A W : Type} (P : forall T : Type, Call T -> Prop)
    (h : Handler W) (p : Prog A) (w : W) :
  AllCalls P p -> Forall (holdsOn P) (trace (run h p w)).
Proof.
  intros Hp. revert w. induction Hp as [a | T c k Hc _ IH]; intros w; simpl.
  - constructor.
  - constructor; [exact Hc | apply IH].
Qed.

Lemma runSteps_FailFast {W : Type} (h : Handler W) steps (w : W) :
  FailFast steps (trace (runSteps h steps w)).
Proof.
  revert w. induction steps as [| c cs IH]; intros w; simpl.
  - constructor.
  - destruct (ans h c w) as [e |]; simpl.
    + apply FailFast_abort.
    + apply FailFast_next, IH.
Qed.

Lemma FailFast_mutations steps tr :
  FailFast steps tr -> mutations tr `prefix_of` omap mutationOf steps.
Proof.
  unfold mutations.
  induction 1 as [| c cs e | c cs tr _ IH]; simpl.
  - done.
  - destruct (mutationOf c); [apply prefix_cons |]; apply prefix_nil.
  - destruct (mutationOf c); [by apply prefix_cons | done].
Qed.

Lemma FailFast_holds (P : forall T : Type, Call T -> Prop) steps tr :
  Forall (P (option error)) steps ->
  FailFast steps tr -> Forall (holdsOn P) tr.
Proof.
  intros Hsteps Hff. induction Hff as [| c cs e | c cs tr _ IH].
  - constructor.
  - inversion_clear Hsteps as [| ? ? Hc _]. by repeat constructor.
  - inversion_clear Hsteps as [| ? ? Hc Hcs]. constructor; [exact Hc | by apply IH].
Qed.

Lemma runSteps_succeed {W : Type} (h : Handler W) steps (w : W) :
  succeed h steps w ->
  trace (runSteps h steps w) = map (fun c => Ev c None) steps.
Proof.
  revert w. induction steps as [| c cs IH]; intros w; simpl.
  - reflexivity.
  - intros [Hc Hcs]. rewrite Hc. simpl. f_equal. by apply IH.
Qed.

(** Case analysis on the answer a [match] of the goal waits for. *)
Ltac answer :=
  match goal with
  | |- context [match ans ?h ?c ?w with _ => _ end] =>
      let E := fresh "Hans" in destruct (ans h c w) eqn:E; simpl
  end.

Section Facts.
Context `{Externals}.
Context {W : Type} (h : Handler W).

Lemma applyBundle_runSteps listenerExists i configListenerImage (w : W) :
  run h (applyBundle listenerExists i configListenerImage) w =
  runSteps h (chainSteps listenerExists i configListenerImage) w.
Proof.
  unfold applyBundle, chainSteps, bundle, createOrUpdate.
  destruct listenerExists; simpl; unfold updateStep, createStep;
    repeat answer; reflexivity.
Qed.

Lemma RemoveConfigListener_runSteps i (w : W) :
  run h (RemoveConfigListener i) w = runSteps h (teardownSteps i) w.
Proof.
  unfold RemoveConfigListener, teardownSteps.
  generalize [ODeployment emptyDeployment; ORole emptyRole;
              ORoleBinding emptyRoleBinding; OServiceAccount emptyServiceAccount].
  intros resources. revert w.
  induction resources as [| obj rest IH]; intros w; simpl.
  - reflexivity.
  - answer; [reflexivity | by rewrite IH].
Qed.

Lemma ConfigListener_disabled i :
  IsConfigListenerEnabled i = false ->
  ConfigListener i = RemoveConfigListener i.
Proof. intros Hoff. unfold ConfigListener. by rewrite Hoff. Qed.

Lemma ConfigListener_resolved i (w w1 : W) configListenerImage pre :
  IsConfigListenerEnabled i = true ->
  run h resolveImage w =
    {| result := Some configListenerImage; final := w1; trace := pre |} ->
  run h (ConfigListener i) w =
  after pre (run h (reconcileListener i configListenerImage) w1).
Proof.
  intros Hon Hres. unfold ConfigListener. rewrite Hon. simpl.
  rewrite run_mbind, Hres. reflexivity.
Qed.

Lemma ConfigListener_unresolved i (w w1 : W) pre :
  IsConfigListenerEnabled i = true ->
  run h resolveImage w = {| result := None; final := w1; trace := pre |} ->
  run h (ConfigListener i) w = {| result := tt; final := w1; trace := pre |}.
Proof.
  intros Hon Hres. unfold ConfigListener. rewrite Hon. simpl.
  rewrite run_mbind, Hres. simpl. by rewrite app_nil_r.
Qed.

Lemma ans_unit (c : Call unit) (w : W) : ans h c w = tt.
Proof. by destruct (ans h c w). Qed.

Lemma resolveImage_constant :
  ConfigListenerImageName <> EmptyString ->
  resolveImage = Ret (Some ConfigListenerImageName).
Proof.
  intros Hne. apply String.eqb_neq in Hne. unfold resolveImage. by rewrite Hne.
Qed.

Lemma resolveImage_lookup (w : W) :
  ConfigListenerImageName = EmptyString ->
  run h resolveImage w =
  match ans h GetOperatorImage w with
  | inr image =>
      {| result := Some image; final := nxt h GetOperatorImage w;
         trace := [Ev GetOperatorImage (inr image)] |}
  | inl err =>
      let msg := "unable to create ConfigListener deployment" in
      {| result := None;
         final := nxt h (Requeue err) (nxt h (LogError err msg) (nxt h GetOperatorImage w));
         trace := [ Ev GetOperatorImage (inl err); Ev (LogError err msg) tt;
                    Ev (Requeue err) tt ] |}
  end.
Proof.
  intros Hempty. unfold resolveImage. rewrite Hempty. simpl.
  destruct (ans h GetOperatorImage w) as [err | image]; simpl; [| reflexivity].
  by rewrite !ans_unit.
Qed.

Lemma ScaleConfigListener_enabled replicas i (w : W) :
  let info := LogInfo "Scaling ConfigListener deployment" "replicas" replicas in
  let target :=
    {| dep_ObjectMeta := objectMetaOf (GetConfigListenerName i) (Namespace i);
       dep_Spec := emptyDeploymentSpec |} in
  let patch := CreateOrPatch target false (scaleMutate replicas) in
  let msg := "unable to scale ConfigListener Deployment" in
  let w1 := nxt h info w in
  IsConfigListenerEnabled i = true ->
  run h (ScaleConfigListener replicas i) w =
  match ans h patch w1 with
  | Some e =>
      {| result := Some e; final := nxt h (LogError e msg) (nxt h patch w1);
         trace := [Ev info tt; Ev patch (Some e); Ev (LogError e msg) tt] |}
  | None =>
      {| result := None; final := nxt h patch w1;
         trace := [Ev info tt; Ev patch None] |}
  end.
Proof.
  intros info target patch msg w1 Hon. unfold ScaleConfigListener.
  rewrite Hon. simpl. fold info target. fold patch. fold w1.
  rewrite (ans_unit info).
  destruct (ans h patch w1) as [e |]; simpl; [| reflexivity].
  by rewrite ans_unit.
Qed.

Lemma resolveImage_calls :
  AllCalls (fun T c => mutationOf c = None /\ writtenOf c = None) resolveImage.
Proof.
  unfold resolveImage. destruct (negb _); simpl.
  - constructor.
  - constructor; [done |]. intros [err | image]; simpl; repeat constructor.
Qed.

Lemma resolveImage_mutations (w : W) :
  mutations (trace (run h resolveImage w)) = [].
Proof.
  pose proof (AllCalls_trace _ h _ w resolveImage_calls) as Hall.
  induction Hall as [| ev tr Hev _ IH]; [done |].
  destruct ev as [T c r]. destruct Hev as [Hm _].
  unfold mutations in *. simpl. by rewrite Hm.
Qed.

Lemma reconcileListener_match i configListenerImage (w : W) existing container :
  let load := Load (GetConfigListenerName i) in
  ans h load w = inr existing ->
  GetContainer InfinispanListenerContainer
    (tmpl_Spec (Template (dep_Spec existing))) = Some container ->
  c_Image container = configListenerImage ->
  run h (reconcileListener i configListenerImage) w =
  prepend (Ev load (inr existing))
    (run h
       match Replicas (dep_Spec existing) with
       | Some replicas =>
           if Z.eqb replicas 0 then
             err ← ScaleConfigListener 1 i;
             match err with
             | Some e => call (Requeue e)
             | None => Ret tt
             end
           else Ret tt
       | None => Ret tt
       end (nxt h load w)).
Proof.
  intros load Hload Hcontainer Himage. unfold reconcileListener.
  rewrite run_call. fold load. rewrite Hload, Hcontainer.
  apply String.eqb_eq in Himage. by rewrite Himage.
Qed.

(** Every object [ConfigListener] can hand to [Create] or [Update], on any
    path, is one of the four objects of the bundle at some image. *)
Lemma ConfigListener_writes (Q : Object -> Prop) i :
  (forall image, Forall Q (bundle i image)) ->
  AllCalls (fun T c => forall obj, writtenOf c = Some obj -> Q obj) (ConfigListener i).
Proof.
  intros HQ.
  assert (Hbundle : forall listenerExists image,
    AllCalls (fun T c => forall obj, writtenOf c = Some obj -> Q obj)
      (applyBundle listenerExists i image)).
  { intros listenerExists image. specialize (HQ image).
    apply Forall_cons in HQ as [Hsa HQ]. apply Forall_cons in HQ as [Hrole HQ].
    apply Forall_cons in HQ as [Hrb HQ]. apply Forall_cons in HQ as [Hdep _].
    unfold applyBundle, createOrUpdate. destruct listenerExists; simpl;
      repeat first
        [ apply AllCalls_Ret
        | apply AllCalls_Vis; [by intros obj [= <-] | intros [e |]] ]. }
  assert (Hscale : forall replicas,
    AllCalls (fun T c => forall obj, writtenOf c = Some obj -> Q obj)
      (ScaleConfigListener replicas i)).
  { intros replicas. unfold ScaleConfigListener. destruct (negb _); simpl.
    - constructor.
    - constructor; [done |]. intros _. constructor; [done |].
      intros [e |]; repeat (constructor; try done). }
  unfold ConfigListener. destruct (negb _).
  - unfold RemoveConfigListener.
    generalize [ODeployment emptyDeployment; ORole emptyRole;
                ORoleBinding emptyRoleBinding; OServiceAccount emptyServiceAccount].
    intros resources. induction resources as [| obj rest IH]; simpl.
    + constructor.
    + constructor; [done |]. intros [e |]; [constructor | exact IH].
  - apply AllCalls_bind.
    + eapply AllCalls_impl; [| exact resolveImage_calls].
      intros T c [_ Hc] obj Hobj. congruence.
    + intros [image |]; [| constructor].
      unfold reconcileListener. simpl. constructor; [done |].
      intros [err | deployment]; [apply Hbundle |].
      destruct (GetContainer _ _) as [container |]; [| apply Hbundle].
      destruct (String.eqb _ _); [| apply Hbundle].
      destruct (Replicas _) as [replicas |]; [| constructor].
      destruct (Z.eqb _ _); [| constructor].
      apply AllCalls_bind; [apply Hscale |].
      intros [e |]; repeat (constructor; try done).
Qed.

Lemma ConfigListener_written (Q : Object -> Prop) i (w : W) ev obj :
  (forall image, Forall Q (bundle i image)) ->
  ev ∈ trace (run h (ConfigListener i) w) ->
  written ev = Some obj -> Q obj.
Proof.
  intros HQ Hin Hwritten.
  pose proof (AllCalls_trace _ h _ w (ConfigListener_writes Q i HQ)) as Hall.
  rewrite Forall_forall in Hall. specialize (Hall ev Hin).
  destruct ev as [T c r]. by apply Hall.
Qed.

Lemma syncNeeded_cases loaded configListenerImage :
  syncNeeded loaded configListenerImage = true <->
  match loaded with
  | inl _ => True
  | inr deployment =>
      match GetContainer InfinispanListenerContainer
              (tmpl_Spec (Template (dep_Spec deployment))) with
      | Some container => c_Image container <> configListenerImage
      | None => True
      end
  end.
Proof.
  unfold syncNeeded. destruct loaded as [err | deployment]; [done |].
  destruct (GetContainer _ _) as [container |]; [| done].
  rewrite negb_true_iff. apply String.eqb_neq.
Qed.

Lemma reconcileListener_sync i configListenerImage (w : W) :
  let load := Load (GetConfigListenerName i) in
  syncNeeded (ans h load w) configListenerImage = true ->
  run h (reconcileListener i configListenerImage) w =
  prepend (Ev load (ans h load w))
    (runSteps h
       (chainSteps (loadSucceeded (ans h load w)) i configListenerImage)
       (nxt h load w)).
Proof.
  intros load Hsync. unfold reconcileListener. rewrite run_call. fold load.
  f_equal. rewrite <- applyBundle_runSteps.
  unfold syncNeeded in Hsync.
  destruct (ans h load w) as [err | deployment]; simpl; [reflexivity |].
  destruct (GetContainer _ _) as [container |]; [| reflexivity].
  destruct (String.eqb _ _); [discriminate | reflexivity].
Qed.

(** What every path into the four-step chain shares: the trace is the
    resolution, the [Load], then the steps run one by one until one fails. *)
Lemma ConfigListener_chain (i : Infinispan) (w w1 : W) configListenerImage pre :
  let load := Load (GetConfigListenerName i) in
  IsConfigListenerEnabled i = true ->
  run h resolveImage w =
    {| result := Some configListenerImage; final := w1; trace := pre |} ->
  syncNeeded (ans h load w1) configListenerImage = true ->
  run h (ConfigListener i) w =
  after (pre ++ [Ev load (ans h load w1)])
    (runSteps h (chainSteps (loadSucceeded (ans h load w1)) i configListenerImage)
       (nxt h load w1)).
Proof.
  intros load Hon Hres Hsync.
  rewrite (ConfigListener_resolved i w _ _ _ Hon Hres).
  rewrite (reconcileListener_sync i _ w1 Hsync). fold load.
  unfold after, prepend. simpl. by rewrite <- app_assoc.
Qed.

Lemma chainSteps_mutations listenerExists (i : Infinispan) configListenerImage :
  omap mutationOf (chainSteps listenerExists i configListenerImage) =
  [ (KServiceAccount, GetConfigListenerName i); (KRole, GetConfigListenerName i);
    (KRoleBinding, GetConfigListenerName i); (KDeployment, GetConfigListenerName i) ].
Proof. by destruct listenerExists. Qed.

Lemma chainSteps_written listenerExists (i : Infinispan) configListenerImage :
  Forall (fun c => is_Some (writtenOf c))
    (chainSteps listenerExists i configListenerImage).
Proof. destruct listenerExists; repeat constructor; by eexists. Qed.

Lemma chainSteps_created (i : Infinispan) configListenerImage :
  Forall (fun c => is_Some (createdOf c)) (chainSteps false i configListenerImage).
Proof. repeat constructor; by eexists. Qed.

End Facts.

(** ** The in-memory store *)

Lemma Store_delete_healthy name obj (c : Store.Cluster) :
  Store.faults c = [] ->
  Store.delete name obj [RetryOnErr; IgnoreNotFound] c =
  (None, Store.setObjects (base.delete (kindOf obj, name) (Store.objects c)) c).
Proof.
  destruct c as [objs image faults clock requeued]. simpl. intros ->.
  unfold Store.delete, Store.nextFault, Store.setObjects. simpl.
  destruct (objs !! (kindOf obj, name)) eqn:Hlookup; simpl; [reflexivity |].
  by rewrite delete_id.
Qed.

Lemma Store_delete_error name obj opts (c : Store.Cluster) e :
  IgnoreNotFound ∈ opts ->
  fst (Store.delete name obj opts c) = Some e -> IsNotFound e = false.
Proof.
  intros Hopt. unfold Store.delete.
  destruct (Store.nextFault c) as [fault c1].
  destruct fault as [e1 |]; [| destruct (Store.objects c1 !! _)]; simpl;
    rewrite ?bool_decide_eq_true_2 by done; simpl;
    try discriminate.
  destruct (IsNotFound e1) eqn:Hnf; simpl; [discriminate |].
  by intros [= <-].
Qed.

Lemma Store_createOrPatch_healthy target mutate (c : Store.Cluster) :
  let key := (KDeployment, om_Name (dep_ObjectMeta target)) in
  Store.faults c = [] ->
  Store.createOrPatch target mutate c =
  match Store.objects c !! key with
  | Some (ODeployment existing) =>
      match mutate existing with
      | (_, Some e) => (Some e, c)
      | (patched, None) =>
          (None, Store.setObjects (<[key := ODeployment patched]> (Store.objects c)) c)
      end
  | _ =>
      match mutate target with
      | (_, Some e) => (Some e, c)
      | (desired, None) =>
          (None,
           Store.tick (Store.setObjects
             (<[key := Store.stamp (Z.pos (Store.clock c)) (ODeployment desired)]>
                (Store.objects c)) c))
      end
  end.
Proof.
  destruct c as [objs image faults clock requeued]. simpl. intros ->.
  reflexivity.
Qed.

(** ** The claims *)

Section Claims.
Context `{Externals}.
Context {W : Type} (h : Handler W).

(** C1. With the feature enabled, the deployment loaded and the image of
    its listener container equal to the resolved image: when the replica
    count is 0 the only calls after the [Load] are those of the scale
    operation at 1 replica (its log line, its [CreateOrPatch] of the
    deployment, whose closure sets the replicas of an existing deployment to
    1, and the log and requeue of its error if it fails), so the deployment
    is the only object the invocation may change; when the replica count is
    greater than 0 the invocation makes no call after the [Load], changes
    the state of the collaborators no further, and makes no mutating call at
    all.  Every further reconcile in such a state is the same no-op. *)
Theorem C1_matching_image_fast_path (i : Infinispan) (w w1 : W)
    configListenerImage pre existing container :
  let name := GetConfigListenerName i in
  let load := Load name in
  let w2 := nxt h load w1 in
  let info := LogInfo "Scaling ConfigListener deployment" "replicas" 1 in
  let target :=
    {| dep_ObjectMeta := objectMetaOf name (Namespace i);
       dep_Spec := emptyDeploymentSpec |} in
  let patch := CreateOrPatch target false (scaleMutate 1) in
  let w3 := nxt h info w2 in
  IsConfigListenerEnabled i = true ->
  run h resolveImage w =
    {| result := Some configListenerImage; final := w1; trace := pre |} ->
  ans h load w1 = inr existing ->
  GetContainer InfinispanListenerContainer
    (tmpl_Spec (Template (dep_Spec existing))) = Some container ->
  c_Image container = configListenerImage ->
  (Replicas (dep_Spec existing) = Some 0 ->
     trace (run h (ConfigListener i) w) =
       pre ++ [Ev load (inr existing); Ev info tt; Ev patch (ans h patch w3)] ++
       match ans h patch w3 with
       | Some e =>
           [ Ev (LogError e "unable to scale ConfigListener Deployment") tt;
             Ev (Requeue e) tt ]
       | None => []
       end /\
     mutations (trace (run h (ConfigListener i) w)) = [(KDeployment, name)] /\
     (forall d, IsZero (om_CreationTimestamp (dep_ObjectMeta d)) = false ->
        Replicas (dep_Spec (fst (scaleMutate 1 d))) = Some 1 /\
        snd (scaleMutate 1 d) = None)) /\
  (forall replicas,
     Replicas (dep_Spec existing) = Some replicas -> 0 < replicas ->
     run h (ConfigListener i) w =
       {| result := tt; final := w2; trace := pre ++ [Ev load (inr existing)] |} /\
     mutations (trace (run h (ConfigListener i) w)) = []).
Proof.
  intros name load w2 info target patch w3 Hon Hres Hload Hcontainer Himage.
  pose proof (resolveImage_mutations h w) as Hpre. rewrite Hres in Hpre.
  simpl in Hpre.
  rewrite (ConfigListener_resolved h i w _ _ _ Hon Hres).
  rewrite (reconcileListener_match h i _ w1 _ _ Hload Hcontainer Himage).
  fold name load w2. split.
  - intros ->. cbn [Z.eqb].
    rewrite run_mbind, (ScaleConfigListener_enabled h 1 i w2 Hon).
    fold name info target. fold patch. fold w3.
    split; [| split].
    + destruct (ans h patch w3) as [e |]; simpl; by rewrite ?ans_unit.
    + unfold mutations in *.
      destruct (ans h patch w3) as [e |]; simpl; by rewrite omap_app, Hpre.
    + intros d Hts. unfold scaleMutate. by rewrite Hts.
  - intros replicas -> Hpos.
    assert (Hnz : Z.eqb replicas 0 = false) by (apply Z.eqb_neq; lia).
    rewrite Hnz. simpl. split; [reflexivity |].
    unfold mutations in *. by rewrite omap_app, Hpre.
Qed.

(** C2, as amended. With the feature enabled, the image resolved, the
    [Load] of the deployment failing and every step succeeding, the calls
    after the [Load] are exactly the four creations, in the order
    ServiceAccount, Role, RoleBinding, Deployment, each object carrying the
    derived listener name and the parent's namespace; the deployment handed
    to [Create] has the listener container with the resolved image, and
    leaves its replica count unset (nil). *)
Theorem C2_creation_from_empty (i : Infinispan) (w w1 : W) configListenerImage pre err :
  let name := GetConfigListenerName i in
  let load := Load name in
  let sa := listenerServiceAccount i in
  let role := listenerRole i in
  let roleBinding := listenerRoleBinding i in
  let deployment := listenerDeployment i configListenerImage in
  let objs :=
    [OServiceAccount sa; ORole role; ORoleBinding roleBinding; ODeployment deployment] in
  IsConfigListenerEnabled i = true ->
  run h resolveImage w =
    {| result := Some configListenerImage; final := w1; trace := pre |} ->
  ans h load w1 = inl err ->
  succeed h (map (fun obj => Create obj true [RetryOnErr]) objs) (nxt h load w1) ->
  trace (run h (ConfigListener i) w) =
    pre ++ Ev load (inl err) ::
      map (fun obj => Ev (Create obj true [RetryOnErr]) None) objs /\
  Forall (fun obj => om_Name (metaOf obj) = name /\
                     om_Namespace (metaOf obj) = Namespace i) objs /\
  (exists container,
     Containers (tmpl_Spec (Template (dep_Spec deployment))) = [container] /\
     c_Name container = InfinispanListenerContainer /\
     c_Image container = configListenerImage) /\
  Replicas (dep_Spec deployment) = None.
Proof.
  intros name load sa role roleBinding deployment objs Hon Hres Hload Hok.
  assert (Hsync : syncNeeded (ans h load w1) configListenerImage = true)
    by (by rewrite Hload).
  rewrite (ConfigListener_chain h i w w1 _ _ Hon Hres Hsync). fold name load.
  rewrite Hload. unfold after. cbn [trace loadSucceeded].
  split.
  - rewrite <- app_assoc. cbn [app]. do 2 f_equal.
    etrans; [exact (runSteps_succeed h _ _ Hok) | by rewrite map_map].
  - split; [by repeat constructor |]. split; [by eexists | reflexivity].
Qed.

(** C3. Whenever [ConfigListener] reaches the four-step chain (the feature
    is enabled, the image is resolved, and the deployment is absent, lacks
    the listener container or runs another image), the calls after the
    [Load] are the steps ServiceAccount, Role, RoleBinding, Deployment in
    that order, each attempted only after the previous one answered nil, and
    the first error ends the invocation: every call of the chain is a
    [Create] or an [Update], so nothing applied is rolled back.  If the Role
    step fails, the chain is the ServiceAccount step followed by the failed
    Role step and nothing else. *)
Theorem C3_chain_order_fail_fast (i : Infinispan) (w w1 : W) configListenerImage pre :
  let name := GetConfigListenerName i in
  let load := Load name in
  let w2 := nxt h load w1 in
  let step := if loadSucceeded (ans h load w1) then updateStep else createStep in
  let sa := step (OServiceAccount (listenerServiceAccount i)) in
  let role := step (ORole (listenerRole i)) in
  let roleBinding := step (ORoleBinding (listenerRoleBinding i)) in
  let deployment := step (ODeployment (listenerDeployment i configListenerImage)) in
  IsConfigListenerEnabled i = true ->
  run h resolveImage w =
    {| result := Some configListenerImage; final := w1; trace := pre |} ->
  syncNeeded (ans h load w1) configListenerImage = true ->
  exists chain,
    trace (run h (ConfigListener i) w) = pre ++ Ev load (ans h load w1) :: chain /\
    FailFast [sa; role; roleBinding; deployment] chain /\
    mutations chain `prefix_of`
      [ (KServiceAccount, name); (KRole, name); (KRoleBinding, name);
        (KDeployment, name) ] /\
    Forall (fun ev => is_Some (written ev)) chain /\
    (forall e, ans h sa w2 = None -> ans h role (nxt h sa w2) = Some e ->
       chain = [Ev sa None; Ev role (Some e)]).
Proof.
  intros name load w2 step sa role roleBinding deployment Hon Hres Hsync.
  rewrite (ConfigListener_chain h i w w1 _ _ Hon Hres Hsync).
  fold name load w2.
  set (steps := chainSteps _ i configListenerImage).
  assert (Hsteps : steps = [sa; role; roleBinding; deployment]) by reflexivity.
  exists (trace (runSteps h steps w2)).
  pose proof (runSteps_FailFast h steps w2) as Hff.
  split; [simpl; by rewrite <- app_assoc |].
  split; [by rewrite <- Hsteps |].
  split.
  { pose proof (FailFast_mutations _ _ Hff) as Hpre.
    unfold steps in Hpre. by rewrite chainSteps_mutations in Hpre. }
  split.
  { eapply Forall_impl;
      [ exact (FailFast_holds (fun T c => is_Some (writtenOf c)) _ _
                 (chainSteps_written _ i _) Hff)
      | by intros [] ]. }
  intros e Hsa Hrole. rewrite Hsteps. simpl. rewrite Hsa. simpl. by rewrite Hrole.
Qed.

(** C4. With the feature disabled [ConfigListener] is the teardown and
    nothing else, whatever exists.  The teardown asks for the deletion of
    the Deployment, the Role, the RoleBinding and the ServiceAccount under
    the listener name, each with the option [IgnoreNotFound]; it goes on
    after each nil answer and the first error ends the invocation.  In the
    store of the specification a deletion under [IgnoreNotFound] never
    answers a not-found error, so that only another failure aborts; without
    faults all four deletions are attempted and answer nil, whichever
    objects exist, and none of the four is left; and when the four are
    absent already the teardown leaves the store as it was. *)
Theorem C4_teardown_when_disabled (i : Infinispan) (w : W) :
  let name := GetConfigListenerName i in
  let deletes :=
    map (fun obj => Delete name obj [RetryOnErr; IgnoreNotFound])
      [ ODeployment emptyDeployment; ORole emptyRole;
        ORoleBinding emptyRoleBinding; OServiceAccount emptyServiceAccount ] in
  IsConfigListenerEnabled i = false ->
  ConfigListener i = RemoveConfigListener i /\
  FailFast deletes (trace (run h (ConfigListener i) w)) /\
  (succeed h deletes w ->
   trace (run h (ConfigListener i) w) = map (fun c => Ev c None) deletes) /\
  (forall obj opts (c : Store.Cluster) e,
     IgnoreNotFound ∈ opts ->
     ans Store.handler (Delete name obj opts) c = Some e -> IsNotFound e = false) /\
  (forall c : Store.Cluster,
     Store.faults c = [] ->
     let o := run Store.handler (ConfigListener i) c in
     trace o = map (fun c => Ev c None) deletes /\
     (forall k, Store.objects (final o) !! (k, name) = None) /\
     ((forall k, Store.objects c !! (k, name) = None) -> final o = c)).
Proof.
  intros name deletes Hoff.
  rewrite (ConfigListener_disabled i Hoff).
  split; [reflexivity |].
  rewrite RemoveConfigListener_runSteps.
  split; [apply runSteps_FailFast |].
  split; [apply runSteps_succeed |].
  split; [intros obj opts c e; apply Store_delete_error |].
  intros c Hfaults. rewrite RemoveConfigListener_runSteps.
  change (teardownSteps i) with deletes. unfold deletes.
  cbn [map runSteps]. unfold ans, nxt. cbn [Store.handler].
  repeat (rewrite Store_delete_healthy by done; cbn [fst snd prepend trace final]).
  split; [reflexivity |]. split.
  - intros k. cbn [Store.setObjects Store.objects kindOf].
    destruct k; by simplify_map_eq.
  - intros Habsent. cbn [Store.setObjects Store.objects Store.operatorImage
      Store.faults Store.clock Store.requeued kindOf].
    rewrite !delete_id by (by rewrite ?lookup_delete_ne by congruence).
    by destruct c.
Qed.

(** C5. When the feature is disabled [ScaleConfigListener] returns nil and
    makes no call.  Otherwise it logs, builds the deployment of the listener
    name and hands it to [CreateOrPatch] once, with a closure that answers
    a NotFound error for a deployment whose creation timestamp is zero and
    otherwise sets the replicas to the target; the answer of [CreateOrPatch]
    is returned as it is, after a log line when it is an error, and nothing
    is retried or requeued.  In the store of the specification, without
    faults: when the deployment is absent the result is the NotFound error
    and the objects of the store are unchanged, so nothing is created; when
    it exists with a creation timestamp its replicas are set to the target
    and the result is nil. *)
Theorem C5_scale (replicas : Z) (i : Infinispan) (w : W) :
  let name := GetConfigListenerName i in
  let info := LogInfo "Scaling ConfigListener deployment" "replicas" replicas in
  let target :=
    {| dep_ObjectMeta := objectMetaOf name (Namespace i);
       dep_Spec := emptyDeploymentSpec |} in
  let patch := CreateOrPatch target false (scaleMutate replicas) in
  let msg := "unable to scale ConfigListener Deployment" in
  let withReplicas (d : Deployment) :=
    {| dep_ObjectMeta := dep_ObjectMeta d;
       dep_Spec := {| Replicas := Some replicas;
                      Selector := Selector (dep_Spec d);
                      Template := Template (dep_Spec d) |} |} in
  (IsConfigListenerEnabled i = false ->
     ScaleConfigListener replicas i = Ret None) /\
  (IsConfigListenerEnabled i = true ->
     (let w1 := nxt h info w in
      run h (ScaleConfigListener replicas i) w =
      match ans h patch w1 with
      | Some e =>
          {| result := Some e; final := nxt h (LogError e msg) (nxt h patch w1);
             trace := [Ev info tt; Ev patch (Some e); Ev (LogError e msg) tt] |}
      | None =>
          {| result := None; final := nxt h patch w1;
             trace := [Ev info tt; Ev patch None] |}
      end) /\
     (forall d,
        scaleMutate replicas d =
        if IsZero (om_CreationTimestamp (dep_ObjectMeta d)) then
          (d, Some (NewNotFound (appsv1_Resource "deployment")
                      (om_Name (dep_ObjectMeta d))))
        else (withReplicas d, None)) /\
     (forall c : Store.Cluster,
        Store.faults c = [] ->
        Store.objects c !! (KDeployment, name) = None ->
        let o := run Store.handler (ScaleConfigListener replicas i) c in
        result o = Some (NewNotFound (appsv1_Resource "deployment") name) /\
        Store.objects (final o) = Store.objects c) /\
     (forall (c : Store.Cluster) existing,
        Store.faults c = [] ->
        Store.objects c !! (KDeployment, name) = Some (ODeployment existing) ->
        IsZero (om_CreationTimestamp (dep_ObjectMeta existing)) = false ->
        let o := run Store.handler (ScaleConfigListener replicas i) c in
        result o = None /\
        Store.objects (final o) =
          <[(KDeployment, name) := ODeployment (withReplicas existing)]>
            (Store.objects c))).
Proof.
  intros name info target patch msg withReplicas. split.
  { intros Hoff. unfold ScaleConfigListener. by rewrite Hoff. }
  intros Hon. split; [exact (ScaleConfigListener_enabled h replicas i w Hon) |].
  split; [reflexivity |].
  split.
  - intros c Hfaults Habsent.
    rewrite (ScaleConfigListener_enabled Store.handler replicas i c Hon).
    unfold ans, nxt. cbn [Store.handler fst snd].
    rewrite Store_createOrPatch_healthy by done.
    cbn [dep_ObjectMeta objectMetaOf om_Name]. fold name. rewrite Habsent.
    by cbn.
  - intros c existing Hfaults Hexists Hts.
    rewrite (ScaleConfigListener_enabled Store.handler replicas i c Hon).
    unfold ans, nxt. cbn [Store.handler fst snd].
    rewrite Store_createOrPatch_healthy by done.
    cbn [dep_ObjectMeta objectMetaOf om_Name]. fold name. rewrite Hexists.
    unfold scaleMutate. rewrite Hts. by cbn.
Qed.

(** C6. Whenever the bundle sync runs, every step of the chain is an
    [Update] when the [Load] of the deployment succeeded and a [Create]
    (with the controller reference) when it failed, for the three
    non-deployment objects as for the deployment.  So when the existing
    deployment runs another image than the resolved one, or lacks the
    listener container, and the four updates succeed, all four bundle
    objects are updated. *)
Theorem C6_create_or_update_by_load (i : Infinispan) (w w1 : W) configListenerImage pre :
  let load := Load (GetConfigListenerName i) in
  let w2 := nxt h load w1 in
  let objs := bundle i configListenerImage in
  IsConfigListenerEnabled i = true ->
  run h resolveImage w =
    {| result := Some configListenerImage; final := w1; trace := pre |} ->
  syncNeeded (ans h load w1) configListenerImage = true ->
  (exists chain,
     trace (run h (ConfigListener i) w) = pre ++ Ev load (ans h load w1) :: chain /\
     match ans h load w1 with
     | inr _ => FailFast (map (fun obj => Update obj [RetryOnErr]) objs) chain
     | inl _ => FailFast (map (fun obj => Create obj true [RetryOnErr]) objs) chain
     end) /\
  (forall existing,
     ans h load w1 = inr existing ->
     succeed h (map (fun obj => Update obj [RetryOnErr]) objs) w2 ->
     trace (run h (ConfigListener i) w) =
       pre ++ Ev load (inr existing) ::
         map (fun obj => Ev (Update obj [RetryOnErr]) None) objs).
Proof.
  intros load w2 objs Hon Hres Hsync.
  rewrite (ConfigListener_chain h i w w1 _ _ Hon Hres Hsync). fold load w2.
  split.
  - eexists. split; [simpl; by rewrite <- app_assoc |].
    pose proof (runSteps_FailFast h
      (chainSteps (loadSucceeded (ans h load w1)) i configListenerImage) w2) as Hff.
    by destruct (ans h load w1).
  - intros existing Hload Hok. rewrite Hload.
    unfold after. cbn [trace loadSucceeded].
    rewrite <- app_assoc. cbn [app]. do 2 f_equal.
    etrans; [exact (runSteps_succeed h _ w2 Hok) | by rewrite map_map].
Qed.

(** C7. On the enabled path the listener image is the constant
    [ConfigListenerImageName] itself, whatever its contents, when it is not
    empty: the handler is then the reconcile of lines 40-172 at that image
    and never asks for the operator image.  When the constant is empty the
    operator image is looked up: on success the reconcile runs at the image
    found; on failure the handler logs the error, requeues it and returns,
    so that the lookup, the log and the requeue are its only calls and no
    bundle object is loaded, created, updated or deleted. *)
Theorem C7_image_resolution (i : Infinispan) (w : W) :
  IsConfigListenerEnabled i = true ->
  (ConfigListenerImageName <> EmptyString ->
     ConfigListener i = reconcileListener i ConfigListenerImageName) /\
  (ConfigListenerImageName = EmptyString ->
     match ans h GetOperatorImage w with
     | inr image =>
         run h (ConfigListener i) w =
         prepend (Ev GetOperatorImage (inr image))
           (run h (reconcileListener i image) (nxt h GetOperatorImage w))
     | inl err =>
         let msg := "unable to create ConfigListener deployment" in
         trace (run h (ConfigListener i) w) =
           [ Ev GetOperatorImage (inl err); Ev (LogError err msg) tt;
             Ev (Requeue err) tt ] /\
         mutations (trace (run h (ConfigListener i) w)) = []
     end).
Proof.
  intros Hon. split.
  - intros Hne. unfold ConfigListener.
    by rewrite Hon, (resolveImage_constant Hne).
  - intros Hempty. pose proof (resolveImage_lookup h w Hempty) as Hres.
    destruct (ans h GetOperatorImage w) as [err | image].
    + rewrite (ConfigListener_unresolved h i w _ _ Hon Hres). done.
    + rewrite (ConfigListener_resolved h i w _ _ _ Hon Hres).
      by destruct (run h (reconcileListener i image) _).
Qed.

(** C8. Every deployment a run of [ConfigListener] hands to [Create] or
    [Update] has exactly one container, and the arguments of that container
    are [listener], [-namespace], the parent's namespace, [-cluster], the
    parent's name, in this order. *)
Theorem C8_listener_arguments (i : Infinispan) (w : W) ev d :
  ev ∈ trace (run h (ConfigListener i) w) ->
  written ev = Some (ODeployment d) ->
  exists container,
    Containers (tmpl_Spec (Template (dep_Spec d))) = [container] /\
    c_Args container = ["listener"; "-namespace"; Namespace i; "-cluster"; Name i].
Proof.
  intros Hin Hwritten.
  apply (ConfigListener_written h
           (fun obj => forall d, obj = ODeployment d ->
              exists container,
                Containers (tmpl_Spec (Template (dep_Spec d))) = [container] /\
                c_Args container =
                  ["listener"; "-namespace"; Namespace i; "-cluster"; Name i])
           i w ev (ODeployment d)); [| done | done | done].
  intros image. repeat constructor; intros ? [= <-]. by eexists.
Qed.

(** C9. With the feature enabled, the deployment loaded and the image of
    its listener container equal to the resolved image, a nil
    [Spec.Replicas] ends the invocation after the [Load]: the scale
    operation is not invoked and no call is made.  And the deployment built
    for the chain has a nil [Spec.Replicas]: every deployment a run of
    [ConfigListener] hands to [Create] or [Update] carries no replica
    count. *)
Theorem C9_nil_replicas (i : Infinispan) (w w1 : W)
    configListenerImage pre existing container :
  let load := Load (GetConfigListenerName i) in
  IsConfigListenerEnabled i = true ->
  run h resolveImage w =
    {| result := Some configListenerImage; final := w1; trace := pre |} ->
  ans h load w1 = inr existing ->
  GetContainer InfinispanListenerContainer
    (tmpl_Spec (Template (dep_Spec existing))) = Some container ->
  c_Image container = configListenerImage ->
  Replicas (dep_Spec existing) = None ->
  run h (ConfigListener i) w =
    {| result := tt; final := nxt h load w1;
       trace := pre ++ [Ev load (inr existing)] |} /\
  (forall image, Replicas (dep_Spec (listenerDeployment i image)) = None) /\
  (forall (w' : W) ev d,
     ev ∈ trace (run h (ConfigListener i) w') ->
     written ev = Some (ODeployment d) ->
     Replicas (dep_Spec d) = None).
Proof.
  intros load Hon Hres Hload Hcontainer Himage Hnil.
  rewrite (ConfigListener_resolved h i w _ _ _ Hon Hres).
  rewrite (reconcileListener_match h i _ w1 _ _ Hload Hcontainer Himage).
  rewrite Hnil. split; [reflexivity |]. split; [reflexivity |].
  intros w' ev d Hin Hwritten.
  apply (ConfigListener_written h
           (fun obj => forall d, obj = ODeployment d -> Replicas (dep_Spec d) = None)
           i w' ev (ODeployment d)); [| done | done | done].
  intros image. repeat constructor; by intros ? [= <-].
Qed.

(** C10. The deployment exists exactly when [Load] answers a nil error.
    On every failure of [Load], whatever the error (not-found or any other),
    [ConfigListener] neither returns nor requeues: it goes on with the chain
    in creation mode, whose first call is the [Create] of the
    ServiceAccount, and none of its calls is an [Update]. *)
Theorem C10_load_failure_creates (i : Infinispan) (w w1 : W) configListenerImage pre err :
  let load := Load (GetConfigListenerName i) in
  let objs := bundle i configListenerImage in
  let createSA :=
    Create (OServiceAccount (listenerServiceAccount i)) true [RetryOnErr] in
  IsConfigListenerEnabled i = true ->
  run h resolveImage w =
    {| result := Some configListenerImage; final := w1; trace := pre |} ->
  ans h load w1 = inl err ->
  exists rest,
    trace (run h (ConfigListener i) w) =
      pre ++ Ev load (inl err) :: Ev createSA (ans h createSA (nxt h load w1)) :: rest /\
    FailFast (map (fun obj => Create obj true [RetryOnErr]) objs)
      (Ev createSA (ans h createSA (nxt h load w1)) :: rest) /\
    Forall (fun ev => is_Some (created ev))
      (Ev createSA (ans h createSA (nxt h load w1)) :: rest).
Proof.
  intros load objs createSA Hon Hres Hload.
  assert (Hsync : syncNeeded (ans h load w1) configListenerImage = true)
    by (by rewrite Hload).
  rewrite (ConfigListener_chain h i w w1 _ _ Hon Hres Hsync). fold load.
  rewrite Hload. cbn [loadSucceeded]. unfold after. cbn [trace].
  set (steps := chainSteps false i configListenerImage).
  pose proof (runSteps_FailFast h steps (nxt h load w1)) as Hff.
  set (chain := trace (runSteps h steps (nxt h load w1))) in *.
  assert (Hchain : chain = Ev createSA (ans h createSA (nxt h load w1)) :: tail chain)
    by reflexivity.
  exists (tail chain). rewrite <- Hchain.
  split; [by rewrite <- app_assoc |].
  split; [exact Hff |].
  eapply Forall_impl;
    [ exact (FailFast_holds (fun T c => is_Some (createdOf c)) _ _
               (chainSteps_created i _) Hff)
    | by intros [] ].
Qed.

End Claims.

(** ** The claims at concrete stores *)

Lemma C1_matching_image_witness :
  let i : @Infinispan Demo.fromOperator := Demo.parent true in
  let stopped := run Store.handler (ConfigListener i) (Demo.scaled 0) in
  let running := run Store.handler (ConfigListener i) (Demo.scaled 2) in
  IsConfigListenerEnabled i = true /\
  mutations (trace stopped) = [(KDeployment, Demo.listenerName)] /\
  mutations (trace running) = [] /\
  final running = Demo.scaled 2.
Proof.
  intros i stopped running. split; [reflexivity |].
  edestruct (@C1_matching_image_fast_path Demo.fromOperator _ Store.handler i
               (Demo.scaled 0)) as [Hzero _];
    [reflexivity | vm_compute; reflexivity | vm_compute; reflexivity
    | vm_compute; reflexivity | reflexivity |].
  edestruct (@C1_matching_image_fast_path Demo.fromOperator _ Store.handler i
               (Demo.scaled 2)) as [_ Hpos];
    [reflexivity | vm_compute; reflexivity | vm_compute; reflexivity
    | vm_compute; reflexivity | reflexivity |].
  destruct (Hzero eq_refl) as (_ & Hmut & _).
  destruct (Hpos 2 eq_refl eq_refl) as [Hrun Hnone].
  split; [exact Hmut |]. split; [exact Hnone |].
  unfold running. rewrite Hrun. vm_compute. reflexivity.
Defined.

Lemma C2_creation_witness :
  let i : @Infinispan Demo.fromOperator := Demo.parent true in
  let o := run Store.handler (ConfigListener i) Demo.empty in
  IsConfigListenerEnabled i = true /\
  omap created (trace o) =
    [ OServiceAccount (listenerServiceAccount i); ORole (listenerRole i);
      ORoleBinding (listenerRoleBinding i);
      ODeployment (listenerDeployment i Demo.operatorImage) ] /\
  Replicas (dep_Spec (listenerDeployment i Demo.operatorImage)) = None.
Proof.
  intros i o. split; [reflexivity |].
  edestruct (@C2_creation_from_empty Demo.fromOperator _ Store.handler i Demo.empty)
    as (Htrace & _ & _ & Hnil);
    [ reflexivity | vm_compute; reflexivity | vm_compute; reflexivity
    | vm_compute; repeat split | ].
  split; [| exact Hnil].
  unfold o. rewrite Htrace. reflexivity.
Defined.

(** The claim C2 as stated asks for a replica count of 1 on the created
    deployment.  From the empty store, with every call succeeding, the
    deployment handed to [Create], and the one the store then holds, have no
    replica count. *)
Lemma C2_replicas_counterexample :
  let i : @Infinispan Demo.fromOperator := Demo.parent true in
  let name := GetConfigListenerName i in
  let objs := bundle i Demo.operatorImage in
  let o := run Store.handler (ConfigListener i) Demo.empty in
  IsConfigListenerEnabled i = true /\
  result (run Store.handler (@resolveImage Demo.fromOperator) Demo.empty) =
    Some Demo.operatorImage /\
  Store.objects Demo.empty = ∅ /\
  succeed Store.handler (map (fun obj => Create obj true [RetryOnErr]) objs)
    Demo.empty /\
  exists deployment stored,
    omap created (trace o) =
      [ OServiceAccount (listenerServiceAccount i); ORole (listenerRole i);
        ORoleBinding (listenerRoleBinding i); ODeployment deployment ] /\
    Replicas (dep_Spec deployment) <> Some 1 /\
    Store.objects (final o) !! (KDeployment, name) = Some (ODeployment stored) /\
    Replicas (dep_Spec stored) <> Some 1.
Proof.
  intros i name objs o.
  split; [reflexivity |]. split; [reflexivity |]. split; [reflexivity |].
  split; [vm_compute; repeat split |].
  eexists _, _. split; [vm_compute; reflexivity |].
  split; [discriminate |].
  split; [vm_compute; reflexivity | discriminate].
Qed.

Lemma C3_chain_witness :
  let i : @Infinispan Demo.fromOperator := Demo.parent true in
  let w := Demo.withFaults [None; None; Some (OtherError "forbidden")] Demo.empty in
  let o := run Store.handler (ConfigListener i) w in
  IsConfigListenerEnabled i = true /\
  mutations (trace o) =
    [(KServiceAccount, Demo.listenerName); (KRole, Demo.listenerName)] /\
  Store.objects (final o) !! (KRoleBinding, Demo.listenerName) = None /\
  Store.objects (final o) !! (KDeployment, Demo.listenerName) = None.
Proof.
  intros i w o. split; [reflexivity |].
  edestruct (@C3_chain_order_fail_fast Demo.fromOperator _ Store.handler i w)
    as (chain & Htrace & _ & _ & _ & Hrole);
    [ reflexivity | vm_compute; reflexivity | vm_compute; reflexivity | ].
  specialize (Hrole (OtherError "forbidden") eq_refl eq_refl).
  unfold o. rewrite Htrace, Hrole.
  split; [reflexivity |]. split; vm_compute; reflexivity.
Defined.

Lemma C4_teardown_witness :
  let i : @Infinispan Demo.fromOperator := Demo.parent false in
  let o := run Store.handler (ConfigListener i) Demo.provisioned in
  let o' := run Store.handler (ConfigListener i) Demo.empty in
  IsConfigListenerEnabled i = false /\
  ConfigListener i = RemoveConfigListener i /\
  mutations (trace o) =
    [ (KDeployment, Demo.listenerName); (KRole, Demo.listenerName);
      (KRoleBinding, Demo.listenerName); (KServiceAccount, Demo.listenerName) ] /\
  (forall k, Store.objects (final o) !! (k, Demo.listenerName) = None) /\
  final o' = Demo.empty.
Proof.
  intros i o o'. split; [reflexivity |].
  destruct (@C4_teardown_when_disabled Demo.fromOperator _ Store.handler i Demo.empty
              eq_refl) as (Hteardown & _ & _ & _ & Hstore).
  destruct (Hstore Demo.provisioned eq_refl) as (Htrace & Hgone & _).
  destruct (Hstore Demo.empty eq_refl) as (_ & _ & Hsame).
  split; [exact Hteardown |].
  split; [unfold o; rewrite Htrace; reflexivity |].
  split; [exact Hgone |].
  apply Hsame. intros k. apply lookup_empty.
Defined.

Lemma C5_scale_witness :
  let off : @Infinispan Demo.fromOperator := Demo.parent false in
  let on : @Infinispan Demo.fromOperator := Demo.parent true in
  let absent := run Store.handler (ScaleConfigListener 1 on) Demo.empty in
  let present := run Store.handler (ScaleConfigListener 3 on) Demo.provisioned in
  ScaleConfigListener 1 off = Ret None /\
  result absent =
    Some (NewNotFound (appsv1_Resource "deployment") Demo.listenerName) /\
  Store.objects (final absent) = ∅ /\
  result present = None /\
  (exists d, Store.objects (final present) !! (KDeployment, Demo.listenerName) =
               Some (ODeployment d) /\ Replicas (dep_Spec d) = Some 3).
Proof.
  intros off on absent present.
  destruct (@C5_scale Demo.fromOperator _ Store.handler 1 off Demo.empty)
    as [Hoff _].
  destruct (@C5_scale Demo.fromOperator _ Store.handler 1 on Demo.empty)
    as [_ Hon1].
  destruct (@C5_scale Demo.fromOperator _ Store.handler 3 on Demo.empty)
    as [_ Hon3].
  destruct (Hon1 eq_refl) as (_ & _ & Habsent & _).
  destruct (Hon3 eq_refl) as (_ & _ & _ & Hpresent).
  destruct (Habsent Demo.empty eq_refl eq_refl) as [Hres Hobjs].
  edestruct (Hpresent Demo.provisioned) as [Hnil Hstored];
    [reflexivity | vm_compute; reflexivity | reflexivity |].
  split; [exact (Hoff eq_refl) |]. split; [exact Hres |]. split; [exact Hobjs |].
  split; [exact Hnil |].
  eexists. unfold present. rewrite Hstored.
  split; [apply lookup_insert_eq | reflexivity].
Defined.

Lemma C6_drift_witness :
  let i : @Infinispan Demo.overridden := Demo.parent true in
  let o := run Store.handler (ConfigListener i) Demo.provisioned in
  IsConfigListenerEnabled i = true /\
  omap written (trace o) = bundle i Demo.listenerImage /\
  omap created (trace o) = [].
Proof.
  intros i o. split; [reflexivity |].
  edestruct (@C6_create_or_update_by_load Demo.overridden _ Store.handler i
               Demo.provisioned) as [_ Hupdates];
    [ reflexivity | vm_compute; reflexivity | vm_compute; reflexivity | ].
  unfold o. erewrite Hupdates;
    [ split; reflexivity | vm_compute; reflexivity | vm_compute; repeat split ].
Defined.

Lemma C7_resolution_witness :
  let i : @Infinispan Demo.fromOperator := Demo.parent true in
  let i' : @Infinispan Demo.overridden := Demo.parent true in
  let err := OtherError "operator pod not found" in
  IsConfigListenerEnabled i = true /\
  trace (run Store.handler (ConfigListener i) Demo.noOperatorImage) =
    [ Ev GetOperatorImage (inl err);
      Ev (LogError err "unable to create ConfigListener deployment") tt;
      Ev (Requeue err) tt ] /\
  ConfigListener i' = reconcileListener i' Demo.listenerImage.
Proof.
  intros i i' err. split; [reflexivity |].
  destruct (@C7_image_resolution Demo.fromOperator _ Store.handler i
              Demo.noOperatorImage eq_refl) as [_ Hlookup].
  destruct (@C7_image_resolution Demo.overridden _ Store.handler i'
              Demo.noOperatorImage eq_refl) as [Hconstant _].
  split; [exact (proj1 (Hlookup eq_refl)) |].
  apply Hconstant. discriminate.
Defined.

Lemma C8_arguments_witness :
  let i : @Infinispan Demo.fromOperator := Demo.parent true in
  let d := listenerDeployment i Demo.operatorImage in
  Ev (Create (ODeployment d) true [RetryOnErr]) None
    ∈ trace (run Store.handler (ConfigListener i) Demo.empty) /\
  exists container,
    Containers (tmpl_Spec (Template (dep_Spec d))) = [container] /\
    c_Args container = ["listener"; "-namespace"; "ns"; "-cluster"; "example"].
Proof.
  intros i d.
  assert (Hin : Ev (Create (ODeployment d) true [RetryOnErr]) None
                  ∈ trace (run Store.handler (ConfigListener i) Demo.empty)).
  { apply (list_elem_of_lookup_2 _ 5%nat). vm_compute. reflexivity. }
  split; [exact Hin |].
  exact (@C8_listener_arguments Demo.fromOperator _ Store.handler i Demo.empty
           _ d Hin eq_refl).
Defined.

Lemma C9_nil_replicas_witness :
  let i : @Infinispan Demo.fromOperator := Demo.parent true in
  let o := run Store.handler (ConfigListener i) Demo.provisioned in
  IsConfigListenerEnabled i = true /\
  (exists d, Store.objects Demo.provisioned !! (KDeployment, Demo.listenerName) =
               Some (ODeployment d) /\ Replicas (dep_Spec d) = None) /\
  mutations (trace o) = [] /\
  final o = Demo.provisioned.
Proof.
  intros i o. split; [reflexivity |].
  split; [eexists; split; vm_compute; reflexivity |].
  edestruct (@C9_nil_replicas Demo.fromOperator _ Store.handler i Demo.provisioned)
    as (Hrun & _ & _);
    [ reflexivity | vm_compute; reflexivity | vm_compute; reflexivity
    | vm_compute; reflexivity | reflexivity | reflexivity | ].
  unfold o. rewrite Hrun. split; vm_compute; reflexivity.
Defined.

Lemma C10_load_failure_witness :
  let i : @Infinispan Demo.fromOperator := Demo.parent true in
  let timeout := OtherError "context deadline exceeded" in
  let w := Demo.withFaults [Some timeout] Demo.provisioned in
  let o := run Store.handler (ConfigListener i) w in
  let createSA :=
    Create (OServiceAccount (listenerServiceAccount i)) true [RetryOnErr] in
  IsConfigListenerEnabled i = true /\
  is_Some (Store.objects w !! (KDeployment, Demo.listenerName)) /\
  ans Store.handler (Load Demo.listenerName) w = inl timeout /\
  (exists rest,
     trace o =
       [ Ev GetOperatorImage (inr Demo.operatorImage);
         Ev (Load Demo.listenerName) (inl timeout);
         Ev createSA
           (Some (NewAlreadyExists (Store.resourceOf KServiceAccount)
                    Demo.listenerName)) ] ++ rest /\
     Forall (fun ev => is_Some (created ev)) rest) /\
  Store.requeued (final o) = [].
Proof.
  intros i timeout w o createSA. split; [reflexivity |].
  split; [vm_compute; by eexists |]. split; [reflexivity |].
  edestruct (@C10_load_failure_creates Demo.fromOperator _ Store.handler i w)
    as (rest & Htrace & _ & Hcreated);
    [ reflexivity | vm_compute; reflexivity | vm_compute; reflexivity | ].
  split; [| vm_compute; reflexivity].
  exists rest. split; [exact Htrace |].
  by apply Forall_cons in Hcreated as [_ Hcreated].
Defined.

(** ** Further properties of the handler *)

Lemma Always_Ret {A : Type} (P : list Event -> Prop) (a : A) :
  P [] -> Always P (Ret a).
Proof. intros HP W h w. exact HP. Qed.

Lemma Always_Vis {A T : Type} (P : list Event -> Prop) (c : Call T) (k : T -> Prog A) :
  (forall r, Always (fun tr => P (Ev c r :: tr)) (k r)) -> Always P (Vis c k).
Proof. intros Hk W h w. simpl. apply Hk. Qed.

(** Walks every path of a handler function: at each call any answer, at each
    test any outcome; what is left is the property on the trace of each
    path. *)
Ltac explore :=
  repeat (simpl; first
    [ apply Always_Ret
    | apply Always_Vis; intros ?
    | match goal with
      | |- Always _ (match ?x with _ => _ end) => destruct x eqn:?
      | |- Always _ (mbind _ (match ?x with _ => _ end)) => destruct x eqn:?
      | |- Always _ (bind (match ?x with _ => _ end) _) => destruct x eqn:?
      | |- Always _ (Prog_bind _ _ _ (match ?x with _ => _ end)) =>
          destruct x eqn:?
      end ]).

(** Turns a goal on the trace of a run, for any collaborators, into the
    same property on every path of the handler function. *)
Ltac on_every_path p :=
  let W := fresh "W" in
  let h := fresh "h" in
  let w := fresh "w" in
  intros W h w;
  pattern (trace (run h p w));
  match goal with
  | |- ?P _ => revert W h w; change (Always P p)
  end.

Ltac unfold_handlers :=
  unfold ConfigListener, RemoveConfigListener, resolveImage, reconcileListener,
    ScaleConfigListener, applyBundle, createOrUpdate.

Section Paths.
Context `{Externals}.

(** With the feature disabled every call of [ConfigListener] is a [Delete];
    with the feature enabled none is, on any path and whatever the
    collaborators answer.  An invocation always makes at least one call. *)
Theorem ConfigListener_deletes_iff_disabled (i : Infinispan) :
  forall (W : Type) (h : Handler W) (w : W),
    let tr := trace (run h (ConfigListener i) w) in
    tr <> [] /\
    Forall (fun ev => eventName ev = NDelete <-> IsConfigListenerEnabled i = false) tr.
Proof.
  on_every_path (ConfigListener i).
  unfold_handlers. destruct (IsConfigListenerEnabled i); explore;
    (split; [done | repeat constructor; done]).
Qed.


(** On any path, every [Create] of [ConfigListener] sets the controller
    reference and carries the option [RetryOnErr] alone, every [Update]
    carries [RetryOnErr] alone, every [Delete] carries [RetryOnErr] and
    [IgnoreNotFound], and the [CreateOrPatch] of the scale operation never
    sets the controller reference. *)
Theorem ConfigListener_call_options (i : Infinispan) :
  forall (W : Type) (h : Handler W) (w : W),
    Forall (fun ev =>
              match eventName ev with
              | NCreate =>
                  controllerRef ev = Some true /\ options ev = Some [RetryOnErr]
              | NUpdate => options ev = Some [RetryOnErr]
              | NDelete => options ev = Some [RetryOnErr; IgnoreNotFound]
              | NCreateOrPatch => controllerRef ev = Some false
              | _ => True
              end)
      (trace (run h (ConfigListener i) w)).
Proof.
  on_every_path (ConfigListener i).
  unfold_handlers. explore; repeat constructor.
Qed.

(** A [Requeue] by [ConfigListener] is the last call of the invocation (so
    that there is at most one), and the call just before it is the
    [LogError] of the very error that is requeued. *)
Theorem ConfigListener_requeue_is_last_and_logged (i : Infinispan) :
  forall (W : Type) (h : Handler W) (w : W),
    let tr := trace (run h (ConfigListener i) w) in
    forall n ev e,
      tr !! n = Some ev -> requeued ev = Some e ->
      S n = length tr /\
      exists m prev, n = S m /\ tr !! m = Some prev /\ logged prev = Some e.
Proof.
  on_every_path (ConfigListener i).
  unfold_handlers. explore; intros n evq errq Hn Hreq.
  all: repeat (destruct n as [| n]; simpl in Hn;
            [ injection Hn as <-; simpl in Hreq;
              first [ discriminate Hreq
                    | injection Hreq as <-; split; [reflexivity |];
                      eexists _, _; repeat split; reflexivity ]
            | ]).
  all: destruct n; simpl in Hn; discriminate Hn.
Qed.

(** An invocation of [ConfigListener] makes at most six calls to its
    collaborators, at most four of them changing the store, and at most one
    [GetOperatorImage], one [Load], one [CreateOrPatch] and one [Requeue];
    an invocation of [ScaleConfigListener] makes at most three calls, one of
    them at most changing the store, and never requeues. *)
Theorem handlers_call_budget (i : Infinispan) :
  (forall (W : Type) (h : Handler W) (w : W),
     let tr := trace (run h (ConfigListener i) w) in
     (length tr <= 6)%nat /\ (length (mutations tr) <= 4)%nat /\
     (calls NGetOperatorImage tr <= 1)%nat /\ (calls NLoad tr <= 1)%nat /\
     (calls NCreateOrPatch tr <= 1)%nat /\ (calls NRequeue tr <= 1)%nat) /\
  (forall replicas (W : Type) (h : Handler W) (w : W),
     let tr := trace (run h (ScaleConfigListener replicas i) w) in
     (length tr <= 3)%nat /\ (length (mutations tr) <= 1)%nat /\
     calls NRequeue tr = 0%nat).
Proof.
  split; [| intros replicas].
  - on_every_path (ConfigListener i).
    unfold_handlers. explore; repeat split; vm_compute; lia.
  - on_every_path (ScaleConfigListener replicas i).
    unfold_handlers. explore; repeat split; vm_compute; lia.
Qed.

(** [ConfigListener] itself never logs or requeues the failure of a
    [Create], an [Update] or a [Delete]: on any path that makes one of these
    calls there is no [LogError] and no [Requeue].  (These calls carry the
    option [RetryOnErr]; the handler only returns.) *)
Theorem ConfigListener_write_errors_not_reported (i : Infinispan) :
  forall (W : Type) (h : Handler W) (w : W),
    let tr := trace (run h (ConfigListener i) w) in
    (0 < calls NCreate tr + calls NUpdate tr + calls NDelete tr)%nat ->
    calls NLogError tr = 0%nat /\ calls NRequeue tr = 0%nat.
Proof.
  on_every_path (ConfigListener i).
  unfold_handlers. explore; vm_compute; lia.
Qed.

(** The objects [ConfigListener] writes in one invocation refer to each
    other: whatever the path, a RoleBinding written names a Role written and
    has a ServiceAccount written as its only subject, and the pods of a
    Deployment written run under a ServiceAccount written, in its
    namespace. *)
Theorem ConfigListener_bundle_references (i : Infinispan) :
  forall (W : Type) (h : Handler W) (w : W),
    let objs := omap written (trace (run h (ConfigListener i) w)) in
    Forall (fun obj => Forall (refersTo obj) objs) objs.
Proof.
  on_every_path (ConfigListener i).
  unfold_handlers. explore; repeat constructor.
Qed.

Lemma listenerDeployment_labels (i : Infinispan) configListenerImage :
  let d := listenerDeployment i configListenerImage in
  let labels := om_Labels (tmpl_ObjectMeta (Template (dep_Spec d))) in
  Selector (dep_Spec d) = Some {| MatchLabels := labels |} /\
  labels !! "app" = Some "infinispan-config-listener-pod" /\
  (forall key, key <> "app" -> labels !! key = PodLabels i !! key).
Proof.
  simpl. split; [reflexivity |]. split; [apply lookup_insert_eq |].
  intros key Hkey. by apply lookup_insert_ne.
Qed.

(** Whatever the path, a deployment [ConfigListener] writes selects its pods
    by exactly the labels of its pod template; these are the pod labels of
    the parent, except that the label [app] is always
    [infinispan-config-listener-pod], also when the parent has an [app]
    label of its own. *)
Theorem ConfigListener_deployment_labels (i : Infinispan) :
  forall (W : Type) (h : Handler W) (w : W),
    Forall (fun obj =>
              match obj with
              | ODeployment d =>
                  let labels := om_Labels (tmpl_ObjectMeta (Template (dep_Spec d))) in
                  Selector (dep_Spec d) = Some {| MatchLabels := labels |} /\
                  labels !! "app" = Some "infinispan-config-listener-pod" /\
                  (forall key, key <> "app" -> labels !! key = PodLabels i !! key)
              | _ => True
              end)
      (omap written (trace (run h (ConfigListener i) w))).
Proof.
  on_every_path (ConfigListener i).
  unfold_handlers. explore;
    repeat first [ apply Forall_nil | apply Forall_cons; split ];
    try exact I; apply listenerDeployment_labels.
Qed.

End Paths.

Section FastPath.
Context `{Externals}.
Context {W : Type} (h : Handler W).

(** With a loaded deployment whose listener container runs the resolved
    image and whose replica count is not exactly 0, nothing follows the
    [Load]. *)
Lemma ConfigListener_fast_noop (i : Infinispan) (w w1 : W)
    configListenerImage pre existing container :
  let load := Load (GetConfigListenerName i) in
  IsConfigListenerEnabled i = true ->
  run h resolveImage w =
    {| result := Some configListenerImage; final := w1; trace := pre |} ->
  ans h load w1 = inr existing ->
  GetContainer InfinispanListenerContainer
    (tmpl_Spec (Template (dep_Spec existing))) = Some container ->
  c_Image container = configListenerImage ->
  Replicas (dep_Spec existing) <> Some 0 ->
  run h (ConfigListener i) w =
    {| result := tt; final := nxt h load w1;
       trace := pre ++ [Ev load (inr existing)] |}.
Proof.
  intros load Hon Hres Hload Hcontainer Himage Hnonzero.
  rewrite (ConfigListener_resolved h i w _ _ _ Hon Hres).
  rewrite (reconcileListener_match h i _ w1 _ _ Hload Hcontainer Himage).
  destruct (Replicas (dep_Spec existing)) as [replicas |]; [| reflexivity].
  destruct (Z.eqb_spec replicas 0) as [-> | _]; [done | reflexivity].
Qed.

(** Only a replica count of exactly 0 makes [ConfigListener] scale the
    listener: with the feature enabled, the deployment loaded and its
    listener container on the resolved image, any other count (positive,
    negative or nil) ends the invocation after the [Load], with no further
    call and the state of the collaborators as the [Load] left it. *)
Theorem ConfigListener_scales_only_at_zero (i : Infinispan) (w w1 : W)
    configListenerImage pre existing container :
  let load := Load (GetConfigListenerName i) in
  IsConfigListenerEnabled i = true ->
  run h resolveImage w =
    {| result := Some configListenerImage; final := w1; trace := pre |} ->
  ans h load w1 = inr existing ->
  GetContainer InfinispanListenerContainer
    (tmpl_Spec (Template (dep_Spec existing))) = Some container ->
  c_Image container = configListenerImage ->
  Replicas (dep_Spec existing) <> Some 0 ->
  run h (ConfigListener i) w =
    {| result := tt; final := nxt h load w1;
       trace := pre ++ [Ev load (inr existing)] |}.
Proof.
  intros load Hon Hres Hload Hcontainer Himage Hnonzero.
  by eapply ConfigListener_fast_noop.
Qed.

(** [ConfigListener] recognises the deployment it writes.  Let
    [kube.GetContainer] find the only container of a pod spec by its name,
    and let the store answer the [Load] with a deployment whose pod template
    is the one [ConfigListener] builds for the image [built] (its metadata
    and replica count may differ, as long as the count is not 0).  Then the
    invocation is a no-op after the [Load] when the resolved image is
    [built], and otherwise it runs the chain in update mode, starting with
    the [Update] of the ServiceAccount. *)
Theorem ConfigListener_recognises_its_deployment (i : Infinispan) (w w1 : W)
    configListenerImage pre existing built :
  let load := Load (GetConfigListenerName i) in
  let updates :=
    map (fun obj => Update obj [RetryOnErr]) (bundle i configListenerImage) in
  (forall spec container,
     Containers spec = [container] ->
     GetContainer (c_Name container) spec = Some container) ->
  IsConfigListenerEnabled i = true ->
  run h resolveImage w =
    {| result := Some configListenerImage; final := w1; trace := pre |} ->
  ans h load w1 = inr existing ->
  Template (dep_Spec existing) = Template (dep_Spec (listenerDeployment i built)) ->
  Replicas (dep_Spec existing) <> Some 0 ->
  (built = configListenerImage ->
     run h (ConfigListener i) w =
       {| result := tt; final := nxt h load w1;
          trace := pre ++ [Ev load (inr existing)] |}) /\
  (built <> configListenerImage ->
     exists first rest,
       trace (run h (ConfigListener i) w) =
         pre ++ Ev load (inr existing) ::
           Ev (Update (OServiceAccount (listenerServiceAccount i)) [RetryOnErr]) first ::
           rest /\
       FailFast updates
         (Ev (Update (OServiceAccount (listenerServiceAccount i)) [RetryOnErr]) first ::
          rest)).
Proof.
  intros load updates Hget Hon Hres Hload Htemplate Hnonzero.
  assert (Hcontainer :
    GetContainer InfinispanListenerContainer
      (tmpl_Spec (Template (dep_Spec existing))) =
    Some {| c_Name := InfinispanListenerContainer; c_Image := built;
            c_Args := ["listener"; "-namespace"; Namespace i; "-cluster"; Name i] |}).
  { rewrite Htemplate. by apply (Hget _ {| c_Name := InfinispanListenerContainer |}). }
  split.
  - intros Hsame.
    by eapply ConfigListener_fast_noop.
  - intros Hdiff.
    assert (Hsync : syncNeeded (ans h load w1) configListenerImage = true).
    { rewrite Hload. apply syncNeeded_cases. by rewrite Hcontainer. }
    rewrite (ConfigListener_chain h i w w1 _ _ Hon Hres Hsync). fold load.
    rewrite Hload. unfold after. cbn [trace loadSucceeded].
    pose proof (runSteps_FailFast h (chainSteps true i configListenerImage)
                  (nxt h load w1)) as Hff.
    set (chain := trace (runSteps h (chainSteps true i configListenerImage)
                           (nxt h load w1))) in *.
    exists (ans h (Update (OServiceAccount (listenerServiceAccount i)) [RetryOnErr])
              (nxt h load w1)), (tail chain).
    split; [by rewrite <- app_assoc | exact Hff].
Qed.

End FastPath.

(** The closure of the scale operation changes nothing but the replica
    count, and leaves a deployment without creation timestamp as it is;
    applied after itself, the last target wins: scaling to [r1] and then to
    [r2] gives what scaling to [r2] gives, so that scaling twice to the same
    target is scaling once. *)
Theorem scaleMutate_last_target_wins (r1 r2 : Z) (d : Deployment) :
  let d1 := fst (scaleMutate r1 d) in
  scaleMutate r2 d1 = scaleMutate r2 d /\
  dep_ObjectMeta d1 = dep_ObjectMeta d /\
  Selector (dep_Spec d1) = Selector (dep_Spec d) /\
  Template (dep_Spec d1) = Template (dep_Spec d) /\
  (snd (scaleMutate r1 d) = None -> Replicas (dep_Spec d1) = Some r1) /\
  (snd (scaleMutate r1 d) <> None -> d1 = d).
Proof.
  unfold scaleMutate.
  destruct (IsZero (om_CreationTimestamp (dep_ObjectMeta d))) eqn:Hts; simpl.
  - rewrite Hts. by repeat split.
  - rewrite Hts. by repeat split.
Qed.

Lemma ConfigListener_scales_only_at_zero_witness :
  let i : @Infinispan Demo.fromOperator := Demo.parent true in
  let w := Demo.scaled (-3) in
  let o := run Store.handler (ConfigListener i) w in
  (exists d, Store.objects w !! (KDeployment, Demo.listenerName) =
               Some (ODeployment d) /\ Replicas (dep_Spec d) = Some (-3)) /\
  mutations (trace o) = [] /\
  final o = w.
Proof.
  intros i w o.
  split; [eexists; split; vm_compute; reflexivity |].
  unfold o.
  erewrite (@ConfigListener_scales_only_at_zero Demo.fromOperator _
              Store.handler i w);
    [ | reflexivity | vm_compute; reflexivity | vm_compute; reflexivity
      | vm_compute; reflexivity | reflexivity | vm_compute; discriminate ].
  split; vm_compute; reflexivity.
Defined.

Lemma ConfigListener_recognises_its_deployment_witness :
  let i : @Infinispan Demo.fromOperator := Demo.parent true in
  let i' : @Infinispan Demo.overridden := Demo.parent true in
  let o := run Store.handler (ConfigListener i) Demo.provisioned in
  let o' := run Store.handler (ConfigListener i') Demo.provisioned in
  (forall spec container,
     Containers spec = [container] ->
     Demo.findContainer (c_Name container) spec = Some container) /\
  final o = Demo.provisioned /\
  (exists first rest,
     trace o' =
       Ev (Load Demo.listenerName)
          (ans Store.handler (Load Demo.listenerName) Demo.provisioned) ::
       Ev (Update (OServiceAccount (listenerServiceAccount i')) [RetryOnErr]) first ::
       rest).
Proof.
  intros i i' o o'.
  assert (Hget : forall spec container,
            Containers spec = [container] ->
            Demo.findContainer (c_Name container) spec = Some container).
  { intros spec container Hone. unfold Demo.findContainer. rewrite Hone.
    simpl. by rewrite String.eqb_refl. }
  split; [exact Hget |].
  edestruct (@ConfigListener_recognises_its_deployment Demo.fromOperator _
               Store.handler i Demo.provisioned) as [Hsame _];
    [ exact Hget | reflexivity | vm_compute; reflexivity | vm_compute; reflexivity
    | vm_compute; reflexivity | vm_compute; discriminate | ].
  edestruct (@ConfigListener_recognises_its_deployment Demo.overridden _
               Store.handler i' Demo.provisioned) as [_ Hother];
    [ exact Hget | reflexivity | vm_compute; reflexivity | vm_compute; reflexivity
    | vm_compute; reflexivity | vm_compute; discriminate | ].
  split.
  - unfold o. rewrite (Hsame eq_refl). vm_compute. reflexivity.
  - destruct Hother as (first & rest & Htrace & _); [discriminate |].
    exists first, rest. exact Htrace.
Defined.

Lemma ConfigListener_requeue_is_last_and_logged_witness :
  let i : @Infinispan Demo.fromOperator := Demo.parent true in
  let err := OtherError "operator pod not found" in
  let tr := trace (run Store.handler (ConfigListener i) Demo.noOperatorImage) in
  tr !! 2%nat = Some (Ev (Requeue err) tt) /\
  length tr = 3%nat /\
  exists prev, tr !! 1%nat = Some prev /\ logged prev = Some err.
Proof.
  intros i err tr.
  assert (Hlast : tr !! 2%nat = Some (Ev (Requeue err) tt)) by reflexivity.
  destruct (@ConfigListener_requeue_is_last_and_logged Demo.fromOperator i _
              Store.handler Demo.noOperatorImage 2%nat _ err Hlast eq_refl)
    as (Hlength & m & prev & Hm & Hprev & Hlogged).
  split; [exact Hlast |]. split; [symmetry; exact Hlength |].
  injection Hm as <-. by exists prev.
Defined.

Lemma ConfigListener_write_errors_not_reported_witness :
  let i : @Infinispan Demo.fromOperator := Demo.parent true in
  let w := Demo.withFaults [None; None; Some (OtherError "forbidden")] Demo.empty in
  let tr := trace (run Store.handler (ConfigListener i) w) in
  calls NCreate tr = 2%nat /\
  length tr = 4%nat /\
  calls NLogError tr = 0%nat /\ calls NRequeue tr = 0%nat.
Proof.
  intros i w tr.
  assert (Hcreates : calls NCreate tr = 2%nat) by (vm_compute; reflexivity).
  split; [exact Hcreates |]. split; [vm_compute; reflexivity |].
  apply (@ConfigListener_write_errors_not_reported Demo.fromOperator i _
           Store.handler w).
  fold tr. rewrite Hcreates. lia.
Defined.
